(** * Graph attention layer ([gcn_node_classification/gat.py])

    A shallow embedding of [GATLayer] and of the tensor operations its
    [forward] uses.  A tensor is a shape with its row-major storage, as the
    tensor runtime keeps it; scalars are real numbers (exact arithmetic),
    adjacency entries are integers.  An operation that raises in the runtime
    returns [Raise]. *)

From Stdlib Require Import List Arith ZArith Lia Bool Reals Lra.
Import ListNotations.

Set Implicit Arguments.

(** ** Results of fallible operations *)

Inductive exn : Type :=
| AssertionError
| ZeroDivisionError
| ShapeError
| IndexError
| TypeError.

Inductive result (A : Type) : Type :=
| Ok (x : A)
| Raise (e : exn).

Arguments Ok {A} x.
Arguments Raise {A} e.

Definition bind {A B : Type} (r : result A) (k : A -> result B) : result B :=
  match r with
  | Ok x => k x
  | Raise e => Raise e
  end.

Notation "x <- r ;; k" := (bind r (fun x => k))
  (at level 61, r at next level, right associativity).

Definition is_ok {A : Type} (r : result A) : bool :=
  match r with Ok _ => true | Raise _ => false end.

(** ** Tensors: a shape and the row-major storage *)

Record Tensor (A : Type) : Type := mkT { shape : list nat; data : list A }.

Arguments mkT {A} shape data.

Definition numel (s : list nat) : nat := fold_right Nat.mul 1 s.

(** Row-major position of a multi-index. *)
Fixpoint offset (s : list nat) (idx : list nat) : nat :=
  match s, idx with
  | _ :: s', i :: idx' => i * numel s' + offset s' idx'
  | _, _ => 0
  end.

Fixpoint in_range (s : list nat) (idx : list nat) : Prop :=
  match s, idx with
  | [], [] => True
  | n :: s', i :: idx' => i < n /\ in_range s' idx'
  | _, _ => False
  end.

(** The storage whose entry at multi-index [idx] is [f idx]. *)
Fixpoint tabulate {A : Type} (s : list nat) (f : list nat -> A) : list A :=
  match s with
  | [] => [f []]
  | n :: s' => flat_map (fun i => tabulate s' (fun idx => f (i :: idx))) (seq 0 n)
  end.

Definition build {A : Type} (s : list nat) (f : list nat -> A) : Tensor A :=
  mkT s (tabulate s f).

Definition build2 {A : Type} (n0 n1 : nat) (f : nat -> nat -> A) : Tensor A :=
  build [n0; n1]
        (fun idx => match idx with [i; j] => f i j | _ => f 0 0 end).

Definition build3 {A : Type} (n0 n1 n2 : nat) (f : nat -> nat -> nat -> A) : Tensor A :=
  build [n0; n1; n2]
        (fun idx => match idx with [i; j; k] => f i j k | _ => f 0 0 0 end).

Definition build4 {A : Type} (n0 n1 n2 n3 : nat)
           (f : nat -> nat -> nat -> nat -> A) : Tensor A :=
  build [n0; n1; n2; n3]
        (fun idx => match idx with [i; j; k; l] => f i j k l | _ => f 0 0 0 0 end).

Definition get {A : Type} (d : A) (t : Tensor A) (idx : list nat) : A :=
  nth (offset (shape t) idx) (data t) d.

Definition getR : Tensor R -> list nat -> R := get 0%R.
Definition getZ : Tensor Z -> list nat -> Z := get 0%Z.

(** A tensor is well formed when its storage has one entry per position. *)
Definition wf {A : Type} (t : Tensor A) : Prop :=
  length (data t) = numel (shape t).

Definition tmap {A B : Type} (f : A -> B) (t : Tensor A) : Tensor B :=
  mkT (shape t) (map f (data t)).

(** Finite sum [f 0 + ... + f (n-1)]. *)
Fixpoint sum_upto (n : nat) (f : nat -> R) : R :=
  match n with
  | O => 0%R
  | S k => (sum_upto k f + f k)%R
  end.

Fixpoint map2 {A B C : Type} (f : A -> B -> C) (xs : list A) (ys : list B) : list C :=
  match xs, ys with
  | x :: xs', y :: ys' => f x y :: map2 f xs' ys'
  | _, _ => []
  end.

Definition shape_eqb (s1 s2 : list nat) : bool :=
  if list_eq_dec Nat.eq_dec s1 s2 then true else false.

(** ** Tensor operations used by the layer *)

(** [t.size(d)]. *)
Definition size {A : Type} (t : Tensor A) (d : nat) : result nat :=
  match nth_error (shape t) d with
  | Some n => Ok n
  | None => Raise IndexError
  end.

(** [nn.Linear(c_in, c_out, bias=False)] applied to a batch [B, N, c_in]:
    the weight has shape [c_out, c_in] and [y[b,n,o] = sum_k x[b,n,k] * W[o,k]].
    Inputs of another rank are outside the model and reported as [ShapeError]. *)
Definition linear (W x : Tensor R) : result (Tensor R) :=
  match shape W, shape x with
  | [c_o; c_i], [B; N; c] =>
      if c =? c_i then
        Ok (build3 B N c_o (fun b n o =>
              sum_upto c_i (fun k => getR x [b; n; k] * getR W [o; k])%R))
      else Raise ShapeError
  | _, _ => Raise ShapeError
  end.

(** [t.view(d0, ..., dk, -1)] and [t.reshape(d0, ..., dk, -1)] on contiguous
    storage: the last dimension is inferred; it is ambiguous (an error) when
    the known dimensions multiply to zero. *)
Definition infer_last (total : nat) (known : list nat) : result (list nat) :=
  let k := numel known in
  if k =? 0 then Raise ShapeError
  else if total mod k =? 0 then Ok (known ++ [total / k])
  else Raise ShapeError.

Definition view_infer {A : Type} (t : Tensor A) (known : list nat) : result (Tensor A) :=
  s <- infer_last (numel (shape t)) known ;;
  Ok (mkT s (data t)).

(** All multi-indices of a shape, in row-major order. *)
Definition indices (s : list nat) : list (list nat) := tabulate s (fun idx => idx).

(** [t.nonzero(as_tuple=False)]: the multi-indices of the nonzero entries,
    one row per entry, in row-major order. *)
Definition nonzero (t : Tensor Z) : list (list nat) :=
  map fst (filter (fun p => negb (Z.eqb (snd p) 0))
                  (combine (indices (shape t)) (data t))).

(** [edges[:, c]]. *)
Definition column (c : nat) (rows : list (list nat)) : list nat :=
  map (fun r => nth c r 0) rows.

(** [torch.index_select(input, index, dim=0)] on a rank-3 input. *)
Definition index_select0 (input : Tensor R) (index : list nat) : result (Tensor R) :=
  match shape input with
  | [M; H; C] =>
      if forallb (fun i => i <? M) index then
        Ok (build3 (length index) H C
                   (fun e h c => getR input [nth e index 0; h; c]))
      else Raise IndexError
  | _ => Raise ShapeError
  end.

(** [torch.cat([x, y], dim=-1)] on rank-3 tensors. *)
Definition cat_last (x y : Tensor R) : result (Tensor R) :=
  match shape x, shape y with
  | [E; H; C1], [E'; H'; C2] =>
      if (E =? E') && (H =? H') then
        Ok (build3 E H (C1 + C2)
                   (fun e h c => if c <? C1 then getR x [e; h; c]
                                 else getR y [e; h; c - C1]))
      else Raise ShapeError
  | _, _ => Raise ShapeError
  end.

(** [torch.einsum('bhc,hc->bh', x, a)]. *)
Definition einsum_bhc_hc_bh (x a : Tensor R) : result (Tensor R) :=
  match shape x, shape a with
  | [E; H; C], [H'; C'] =>
      if (H =? H') && (C =? C') then
        Ok (build2 E H (fun e h =>
              sum_upto C (fun c => getR x [e; h; c] * getR a [h; c])%R))
      else Raise ShapeError
  | _, _ => Raise ShapeError
  end.

(** [nn.LeakyReLU(alpha)]: [max(0, x) + alpha * min(0, x)]. *)
Definition leaky_relu (alpha x : R) : R := (Rmax 0 x + alpha * Rmin 0 x)%R.

(** [t.new_zeros(s)] and the in-place [fill_]. *)
Definition new_zeros (s : list nat) : Tensor R := mkT s (repeat 0%R (numel s)).

Definition fill_ (t : Tensor R) (v : R) : Tensor R := tmap (fun _ => v) t.

(** The sentinel written at every position before the logits are scattered. *)
Definition sentinel : R := (-9e15)%R.

(** [adj[..., None].repeat(1, 1, 1, H)]: every entry repeated along a new
    last axis of length [H]. *)
Definition expand_heads {A : Type} (H : nat) (t : Tensor A) : Tensor A :=
  mkT (shape t ++ [H]) (flat_map (fun z => repeat z H) (data t)).

(** [t == 1]. *)
Definition eq_one (t : Tensor Z) : Tensor bool := tmap (fun z => Z.eqb z 1) t.

Definition count_true (mask : list bool) : nat := length (filter (fun m => m) mask).

(** The values are written, in order, at the positions where the mask holds. *)
Fixpoint scatter (mask : list bool) (dst vals : list R) : list R :=
  match mask, dst with
  | m :: mask', x :: dst' =>
      if m then
        match vals with
        | v :: vals' => v :: scatter mask' dst' vals'
        | [] => x :: scatter mask' dst' []
        end
      else x :: scatter mask' dst' vals
  | _, _ => dst
  end.

(** [dst[mask] = vals] for a boolean mask of the shape of [dst] and a flat
    list of values: one value per selected position, or a single value
    broadcast to all of them; any other number of values is a shape
    mismatch. *)
Definition setitem_mask (dst : Tensor R) (mask : Tensor bool) (vals : list R)
  : result (Tensor R) :=
  if shape_eqb (shape mask) (shape dst) then
    if length vals =? count_true (data mask) then
      Ok (mkT (shape dst) (scatter (data mask) (data dst) vals))
    else
      match vals with
      | [v] => Ok (mkT (shape dst)
                       (map2 (fun (m : bool) x => if m then v else x)
                             (data mask) (data dst)))
      | _ => Raise ShapeError
      end
  else Raise IndexError.

(** [F.softmax(x, dim=2)] on a rank-4 tensor, in exact arithmetic: the
    runtime's floats round these values, and an entry far below the largest
    of its row underflows to 0 there. *)
Definition softmax_dim2 (x : Tensor R) : result (Tensor R) :=
  match shape x with
  | [B; N; M; H] =>
      Ok (build4 B N M H (fun b i j h =>
            exp (getR x [b; i; j; h])
            / sum_upto M (fun k => exp (getR x [b; i; k; h])))%R)
  | _ => Raise ShapeError
  end.

(** [p.permute(0, 3, 1, 2)] on a rank-4 tensor. *)
Definition permute_0312 (p : Tensor R) : Tensor R :=
  match shape p with
  | [B; N; M; H] => build4 B H N M (fun b h i j => getR p [b; i; j; h])
  | _ => p
  end.

(** [torch.einsum('bijh,bjhc->bihc', p, x)]. *)
Definition einsum_bijh_bjhc_bihc (p x : Tensor R) : result (Tensor R) :=
  match shape p, shape x with
  | [B; N; M; H], [B'; M'; H'; C] =>
      if (B =? B') && (M =? M') && (H =? H') then
        Ok (build4 B N H C (fun b i h c =>
              sum_upto M (fun j => getR p [b; i; j; h] * getR x [b; j; h; c])%R))
      else Raise ShapeError
  | _, _ => Raise ShapeError
  end.

(** [t.mean(dim=2)] on a rank-4 tensor. *)
Definition mean_dim2 (t : Tensor R) : result (Tensor R) :=
  match shape t with
  | [B; N; H; C] =>
      Ok (build3 B N C (fun b n c =>
            sum_upto H (fun h => getR t [b; n; h; c]) / INR H)%R)
  | _ => Raise ShapeError
  end.

(** ** The layer *)

(** The attributes of a [GATLayer]: [projection] is the weight of the bias-free
    linear map, of shape [c_out * num_heads, c_in]; [a] has one row per head,
    of shape [num_heads, 2 * c_out]; [leakyrelu] is the negative slope. *)
Record GATLayer : Type := mkGAT {
  num_heads : nat;
  concat_heads : bool;
  projection : Tensor R;
  a : Tensor R;
  leakyrelu : R
}.

(** [nn.init.xavier_normal_]: the tensor is filled with samples; [rng k] is
    the [k]-th sample drawn. *)
Definition xavier_normal_ (rng : nat -> R) (start : nat) (s : list nat) : Tensor R :=
  mkT s (map rng (seq start (numel s))).

(** [GATLayer.__init__].  Dimensions are natural numbers. *)
Definition init (rng : nat -> R) (c_in c_out num_heads : nat)
           (concat_heads : bool) (alpha : R) : result GATLayer :=
  c_out' <- (if concat_heads then
               if num_heads =? 0 then Raise ZeroDivisionError
               else if c_out mod num_heads =? 0 then Ok (c_out / num_heads)
                    else Raise AssertionError
             else Ok c_out) ;;
  let w_shape := [c_out' * num_heads; c_in] in
  Ok (mkGAT num_heads concat_heads
            (xavier_normal_ rng 0 w_shape)
            (xavier_normal_ rng (numel w_shape) [num_heads; 2 * c_out'])
            alpha).

(** The local variables of [forward] once the attention probabilities are
    computed. *)
Record Locals : Type := mkLocals {
  batch_size : nat;
  num_nodes : nat;
  node_feats' : Tensor R;
  edges : list (list nat);
  attn_logits : Tensor R;
  attn_matrix : Tensor R;
  attn_probs : Tensor R
}.

(** [GATLayer.forward] up to the softmax. *)
Definition attention (self : GATLayer) (node_feats : Tensor R) (adj_matrix : Tensor Z)
  : result Locals :=
  batch_size <- size node_feats 0 ;;
  num_nodes <- size node_feats 1 ;;
  projected <- linear (projection self) node_feats ;;
  node_feats <- view_infer projected [batch_size; num_nodes; num_heads self] ;;
  let edges := nonzero adj_matrix in
  node_feats_flat <- view_infer node_feats [batch_size * num_nodes; num_heads self] ;;
  let edge_indices_row :=
    map2 Nat.add (map (fun b => b * num_nodes) (column 0 edges)) (column 1 edges) in
  let edge_indices_col :=
    map2 Nat.add (map (fun b => b * num_nodes) (column 0 edges)) (column 2 edges) in
  sel_row <- index_select0 node_feats_flat edge_indices_row ;;
  sel_col <- index_select0 node_feats_flat edge_indices_col ;;
  a_input <- cat_last sel_row sel_col ;;
  attn_logits <- einsum_bhc_hc_bh a_input (a self) ;;
  let attn_logits := tmap (leaky_relu (leakyrelu self)) attn_logits in
  let attn_matrix :=
    fill_ (new_zeros (shape adj_matrix ++ [num_heads self])) sentinel in
  attn_matrix <- setitem_mask attn_matrix
                              (eq_one (expand_heads (num_heads self) adj_matrix))
                              (data attn_logits) ;;
  attn_probs <- softmax_dim2 attn_matrix ;;
  Ok (mkLocals batch_size num_nodes node_feats edges attn_logits attn_matrix attn_probs).

(** The rest of [forward]: aggregation and combination of the heads. *)
Definition aggregate (self : GATLayer) (l : Locals) : result (Tensor R) :=
  node_feats <- einsum_bijh_bjhc_bihc (attn_probs l) (node_feats' l) ;;
  if concat_heads self then view_infer node_feats [batch_size l; num_nodes l]
  else mean_dim2 node_feats.

(** [GATLayer.forward]: the returned value and what is printed. *)
Definition forward (self : GATLayer) (node_feats : Tensor R) (adj_matrix : Tensor Z)
           (print_attn_probs : bool) : result (Tensor R) * list (Tensor R) :=
  match attention self node_feats adj_matrix with
  | Raise e => (Raise e, [])
  | Ok l =>
      let printed :=
        if print_attn_probs then [permute_0312 (attn_probs l)] else [] in
      (aggregate self l, printed)
  end.

(** ** Well-formed layers and inputs *)

(** A layer for [c_in] input features whose heads have width [C]. *)
Record wf_layer (self : GATLayer) (c_in C : nat) : Prop := mk_wf_layer {
  wf_heads : 0 < num_heads self;
  wf_proj_shape : shape (projection self) = [C * num_heads self; c_in];
  wf_proj : wf (projection self);
  wf_a_shape : shape (a self) = [num_heads self; 2 * C];
  wf_a : wf (a self)
}.

(** A node feature batch [B, N, c_in] with an adjacency batch [B, N, N]. *)
Record valid_input (c_in B N : nat) (node_feats : Tensor R) (adj_matrix : Tensor Z)
  : Prop := mk_valid_input {
  vi_feats_shape : shape node_feats = [B; N; c_in];
  vi_feats : wf node_feats;
  vi_adj_shape : shape adj_matrix = [B; N; N];
  vi_adj : wf adj_matrix
}.

(** Every adjacency entry is 0 or 1. *)
Definition binary (adj_matrix : Tensor Z) : Prop :=
  Forall (fun z => z = 0%Z \/ z = 1%Z) (data adj_matrix).

(** The projected features of node [n] of graph [b], head [h], as a vector. *)
Definition head_feats (l : Locals) (C b n h : nat) : list R :=
  map (fun c => getR (node_feats' l) [b; n; h; c]) (seq 0 C).

(** The weighted sum over the source nodes that [forward] forms for
    destination [i], head [h] and feature [c]. *)
Definition head_output (l : Locals) (b i h c : nat) : R :=
  sum_upto (num_nodes l)
           (fun j => getR (attn_probs l) [b; i; j; h] * getR (node_feats' l) [b; j; h; c])%R.

(** Row [h] of the attention parameter. *)
Definition a_row (self : GATLayer) (C h : nat) : list R :=
  map (fun c => getR (a self) [h; c]) (seq 0 (2 * C)).

Fixpoint dot (xs ys : list R) : R :=
  match xs, ys with
  | x :: xs', y :: ys' => (x * y + dot xs' ys')%R
  | _, _ => 0%R
  end.

(** The logit of head [h] for the edge whose row in [edges] is [r], as the
    einsum over the concatenated selections computes it on the flat view
    [xf] of the projected features. *)
Definition edge_logit (self : GATLayer) (xf : Tensor R) (N C : nat)
           (r : list nat) (h : nat) : R :=
  leaky_relu (leakyrelu self)
    (sum_upto (C + C) (fun c =>
       Rmult (if c <? C then getR xf [nth 0 r 0 * N + nth 1 r 0; h; c]
              else getR xf [nth 0 r 0 * N + nth 2 r 0; h; c - C])
             (getR (a self) [h; c]))).

(** ** The entries of a tensor paired with their indices

    The masked assignment is described on the list of (index, entry) pairs
    of the adjacency batch, in storage order. *)

(** The pairs that [nonzero] keeps. *)
Definition is_nonzero {I : Type} (p : I * Z) : bool := negb (Z.eqb (snd p) 0).

(** The storage of the mask [adj[..., None].repeat(1, 1, 1, H) == 1]. *)
Definition mask_of {I : Type} (H : nat) (ps : list (I * Z)) : list bool :=
  map (fun z => Z.eqb z 1) (flat_map (fun z => repeat z H) (map snd ps)).

(** The values computed for the pairs that [nonzero] keeps, [G i] for the
    pair of index [i], in order. *)
Definition values_of {I : Type} (G : I -> list R) (ps : list (I * Z)) : list R :=
  flat_map (fun p => G (fst p)) (filter is_nonzero ps).

(** ** The layer on a heap of tensor storages

    Tensor objects are handles on storages; a view shares the storage of its
    base and the in-place operations overwrite it.  [forward_st] is [forward]
    with every tensor it touches kept on the heap, and with the print going to
    the output stream. *)

Inductive storage : Type :=
| SReal (d : list R)
| SInt (d : list Z)
| SRows (d : list (list nat))
| SIdx (d : list nat)
| SBool (d : list bool).

Record handle : Type := mkH { loc : nat; hshape : list nat }.

Record world : Type := mkW { heap : list storage; stdout : list (Tensor R) }.

Definition M (A : Type) : Type := world -> result A * world.

Definition ret {A : Type} (x : A) : M A := fun w => (Ok x, w).

Definition bindM {A B : Type} (c : M A) (k : A -> M B) : M B :=
  fun w => match c w with
           | (Ok x, w') => k x w'
           | (Raise e, w') => (Raise e, w')
           end.

Notation "x <~ c ;; k" := (bindM c (fun x => k))
  (at level 61, c at next level, right associativity).

Definition lift {A : Type} (r : result A) : M A := fun w => (r, w).

Definition load (l : nat) : M storage :=
  fun w => match nth_error (heap w) l with
           | Some s => (Ok s, w)
           | None => (Raise IndexError, w)
           end.

Definition alloc (s : storage) : M nat :=
  fun w => (Ok (length (heap w)), mkW (heap w ++ [s]) (stdout w)).

Fixpoint replace_nth {A : Type} (l : nat) (x : A) (xs : list A) : list A :=
  match xs, l with
  | [], _ => []
  | _ :: xs', O => x :: xs'
  | y :: xs', S l' => y :: replace_nth l' x xs'
  end.

Definition store (l : nat) (s : storage) : M unit :=
  fun w => if l <? length (heap w)
           then (Ok tt, mkW (replace_nth l s (heap w)) (stdout w))
           else (Raise IndexError, w).

Definition print (t : Tensor R) : M unit :=
  fun w => (Ok tt, mkW (heap w) (stdout w ++ [t])).

Definition read_real (h : handle) : M (Tensor R) :=
  s <~ load (loc h) ;;
  match s with SReal d => ret (mkT (hshape h) d) | _ => lift (Raise TypeError) end.

Definition read_int (h : handle) : M (Tensor Z) :=
  s <~ load (loc h) ;;
  match s with SInt d => ret (mkT (hshape h) d) | _ => lift (Raise TypeError) end.

Definition read_bool (h : handle) : M (Tensor bool) :=
  s <~ load (loc h) ;;
  match s with SBool d => ret (mkT (hshape h) d) | _ => lift (Raise TypeError) end.

Definition read_rows (l : nat) : M (list (list nat)) :=
  s <~ load l ;;
  match s with SRows d => ret d | _ => lift (Raise TypeError) end.

Definition read_idx (l : nat) : M (list nat) :=
  s <~ load l ;;
  match s with SIdx d => ret d | _ => lift (Raise TypeError) end.

Definition new_real (t : Tensor R) : M handle :=
  l <~ alloc (SReal (data t)) ;; ret (mkH l (shape t)).

Definition new_bool (t : Tensor bool) : M handle :=
  l <~ alloc (SBool (data t)) ;; ret (mkH l (shape t)).

(** A view: the same storage under another shape. *)
Definition view_h (h : handle) (known : list nat) : M handle :=
  s <~ lift (infer_last (numel (hshape h)) known) ;; ret (mkH (loc h) s).

Definition size_h (h : handle) (d : nat) : M nat :=
  lift (match nth_error (hshape h) d with
        | Some n => Ok n
        | None => Raise IndexError
        end).

(** The in-place [fill_]. *)
Definition fill_st (h : handle) (v : R) : M handle :=
  t <~ read_real h ;;
  _ <~ store (loc h) (SReal (data (fill_ t v))) ;;
  ret h.

(** The in-place [dst[mask] = vals.reshape(-1)]. *)
Definition setitem_st (dst mask vals : handle) : M unit :=
  t <~ read_real dst ;;
  m <~ read_bool mask ;;
  v <~ read_real vals ;;
  t' <~ lift (setitem_mask t m (data v)) ;;
  store (loc dst) (SReal (data t')).

(** A layer whose parameters live on the heap. *)
Record GATLayerH : Type := mkGATH {
  num_heads_h : nat;
  concat_heads_h : bool;
  projection_h : handle;
  a_h : handle;
  leakyrelu_h : R
}.

Definition forward_st (self : GATLayerH) (node_feats adj_matrix : handle)
           (print_attn_probs : bool) : M handle :=
  batch_size <~ size_h node_feats 0 ;;
  num_nodes <~ size_h node_feats 1 ;;
  W <~ read_real (projection_h self) ;;
  xv <~ read_real node_feats ;;
  y <~ lift (linear W xv) ;;
  projected <~ new_real y ;;
  node_feats <~ view_h projected [batch_size; num_nodes; num_heads_h self] ;;
  adjv <~ read_int adj_matrix ;;
  edges <~ alloc (SRows (nonzero adjv)) ;;
  node_feats_flat <~ view_h node_feats [batch_size * num_nodes; num_heads_h self] ;;
  ev <~ read_rows edges ;;
  edge_indices_row <~
    alloc (SIdx (map2 Nat.add (map (fun b => b * num_nodes) (column 0 ev)) (column 1 ev))) ;;
  ev <~ read_rows edges ;;
  edge_indices_col <~
    alloc (SIdx (map2 Nat.add (map (fun b => b * num_nodes) (column 0 ev)) (column 2 ev))) ;;
  flat <~ read_real node_feats_flat ;;
  ir <~ read_idx edge_indices_row ;;
  sel <~ lift (index_select0 flat ir) ;;
  sel_row <~ new_real sel ;;
  flat <~ read_real node_feats_flat ;;
  ic <~ read_idx edge_indices_col ;;
  sel <~ lift (index_select0 flat ic) ;;
  sel_col <~ new_real sel ;;
  sr <~ read_real sel_row ;;
  sc <~ read_real sel_col ;;
  ai <~ lift (cat_last sr sc) ;;
  a_input <~ new_real ai ;;
  ai <~ read_real a_input ;;
  av <~ read_real (a_h self) ;;
  lg <~ lift (einsum_bhc_hc_bh ai av) ;;
  attn_logits <~ new_real lg ;;
  lg <~ read_real attn_logits ;;
  attn_logits <~ new_real (tmap (leaky_relu (leakyrelu_h self)) lg) ;;
  attn_matrix <~ new_real (new_zeros (hshape adj_matrix ++ [num_heads_h self])) ;;
  attn_matrix <~ fill_st attn_matrix sentinel ;;
  adjv <~ read_int adj_matrix ;;
  mask <~ new_bool (eq_one (expand_heads (num_heads_h self) adjv)) ;;
  _ <~ setitem_st attn_matrix mask attn_logits ;;
  am <~ read_real attn_matrix ;;
  pr <~ lift (softmax_dim2 am) ;;
  attn_probs <~ new_real pr ;;
  _ <~ (if print_attn_probs
        then pv <~ read_real attn_probs ;; print (permute_0312 pv)
        else ret tt) ;;
  pv <~ read_real attn_probs ;;
  nf <~ read_real node_feats ;;
  agg <~ lift (einsum_bijh_bjhc_bihc pv nf) ;;
  node_feats <~ new_real agg ;;
  if concat_heads_h self
  then view_h node_feats [batch_size; num_nodes]
  else (t <~ read_real node_feats ;;
        mn <~ lift (mean_dim2 t) ;;
        new_real mn).

(** A handle holds a tensor when its storage has the tensor's entries and
    its shape is the tensor's. *)
Definition holds_real (w : world) (h : handle) (t : Tensor R) : Prop :=
  nth_error (heap w) (loc h) = Some (SReal (data t)) /\ hshape h = shape t.

Definition holds_int (w : world) (h : handle) (t : Tensor Z) : Prop :=
  nth_error (heap w) (loc h) = Some (SInt (data t)) /\ hshape h = shape t.

(** ** Example inputs *)

Module Examples.
Definition rng (k : nat) : R := INR k.

(** Two heads of width 1 over two input features, concatenated: the layer
    that [init rng 2 2 2 true 0.2] builds. *)
Definition layer : GATLayer :=
  mkGAT 2 true (xavier_normal_ rng 0 [2; 2]) (xavier_normal_ rng 4 [2; 2]) 0.2%R.

(** One graph of two nodes. *)
Definition feats : Tensor R := mkT [1; 2; 2] [1; 2; 3; 4]%R.

(** Self-loops and one more edge in the row of node 0. *)
Definition adj_loops : Tensor Z := mkT [1; 2; 2] [1; 1; 0; 1]%Z.

(** Node 1 has no edge at all. *)
Definition adj_isolated : Tensor Z := mkT [1; 2; 2] [1; 0; 0; 0]%Z.

(** The first entry is 2. *)
Definition adj_two : Tensor Z := mkT [1; 2; 2] [2; 1; 0; 1]%Z.


(** A heap with the inputs and the parameters of [layer]. *)
Definition world0 : world :=
  mkW [SReal (data feats); SInt (data adj_loops);
       SReal (data (projection layer)); SReal (data (a layer))] [].
Definition feats_h : handle := mkH 0 [1; 2; 2].
Definition adj_h : handle := mkH 1 [1; 2; 2].
Definition layer_h : GATLayerH :=
  mkGATH 2 true (mkH 2 [2; 2]) (mkH 3 [2; 2]) 0.2%R.
End Examples.

Module MoreExamples.
(** A single head of width 2 over two input features, concatenating and
    averaging. *)
Definition weight1 : Tensor R := xavier_normal_ Examples.rng 0 [2; 2].
Definition att1 : Tensor R := xavier_normal_ Examples.rng 4 [1; 4].
Definition layer1_concat : GATLayer := mkGAT 1 true weight1 att1 0.2%R.
Definition layer1_mean : GATLayer := mkGAT 1 false weight1 att1 0.2%R.

(** Features of width 3, for a layer that expects 2. *)
Definition feats_wide : Tensor R := mkT [1; 2; 3] [1; 2; 3; 4; 5; 6]%R.


(** An empty batch. *)
Definition feats_empty : Tensor R := mkT [0; 2; 2] [].
Definition adj_empty : Tensor Z := mkT [0; 2; 2] [].

(** Two graphs of adjacency for a single graph of features. *)
Definition adj_two_graphs : Tensor Z := mkT [2; 2; 2] [1; 0; 0; 1; 1; 0; 0; 1]%Z.

(** The same first graph as [Examples.feats] and [Examples.adj_loops], with a
    second graph added. *)
Definition feats_b2 : Tensor R := mkT [2; 2; 2] [1; 2; 3; 4; 5; 6; 7; 8]%R.
Definition feats_b2' : Tensor R := mkT [2; 2; 2] [1; 2; 3; 4; 0; 0; 0; 0]%R.
Definition adj_b2 : Tensor Z := mkT [2; 2; 2] [1; 1; 0; 1; 1; 0; 0; 1]%Z.
Definition adj_b2' : Tensor Z := mkT [2; 2; 2] [1; 1; 0; 1; 1; 1; 1; 1]%Z.
End MoreExamples.

(** ** Basic facts on storage *)

Lemma tabulate_length {A : Type} (s : list nat) (f : list nat -> A) :
  length (tabulate s f) = numel s.
Proof.
  revert f. induction s as [|n s IH]; intros f; simpl; [reflexivity|].
  generalize 0 as st.
  induction n as [|n IHn]; intros st; simpl; [reflexivity|].
  rewrite length_app, IH, IHn. reflexivity.
Qed.

Lemma flat_map_block_nth {A B : Type} (g : B -> list A) (L : nat) (l : list B)
      (i r : nat) (d : A) (d0 : B) :
  (forall x, In x l -> length (g x) = L) ->
  i < length l -> r < L ->
  nth (i * L + r) (flat_map g l) d = nth r (g (nth i l d0)) d.
Proof.
  revert i. induction l as [|x l IH]; intros i HL Hi Hr; simpl in *; [lia|].
  destruct i as [|i].
  - simpl. rewrite app_nth1 by (rewrite HL; auto; lia). reflexivity.
  - rewrite app_nth2 by (rewrite HL; auto; lia).
    rewrite HL by auto. replace (S i * L + r - L) with (i * L + r) by lia.
    apply IH; auto. lia.
Qed.

Lemma offset_lt (s idx : list nat) : in_range s idx -> offset s idx < numel s.
Proof.
  revert idx. induction s as [|n s IH]; intros [|i idx]; simpl; try tauto; try lia.
  intros [Hi Hr]. specialize (IH _ Hr). nia.
Qed.

Lemma tabulate_nth {A : Type} (s idx : list nat) (f : list nat -> A) (d : A) :
  in_range s idx -> nth (offset s idx) (tabulate s f) d = f idx.
Proof.
  revert idx f. induction s as [|n s IH]; intros [|i idx] f; simpl; try tauto.
  intros [Hi Hr].
  rewrite flat_map_block_nth with (L := numel s) (d0 := 0);
    auto using offset_lt.
  - rewrite seq_nth by assumption. simpl. now rewrite IH.
  - intros k _. apply tabulate_length.
  - now rewrite length_seq.
Qed.

Lemma get_build {A : Type} (d : A) (s idx : list nat) (f : list nat -> A) :
  in_range s idx -> get d (build s f) idx = f idx.
Proof. intros H. unfold get, build; simpl. now apply tabulate_nth. Qed.

Lemma get_build3 {A : Type} (d : A) n0 n1 n2 (f : nat -> nat -> nat -> A) i j k :
  i < n0 -> j < n1 -> k < n2 -> get d (build3 n0 n1 n2 f) [i; j; k] = f i j k.
Proof. intros. unfold build3. rewrite get_build; simpl; auto. Qed.

Lemma get_build4 {A : Type} (d : A) n0 n1 n2 n3
      (f : nat -> nat -> nat -> nat -> A) i j k l :
  i < n0 -> j < n1 -> k < n2 -> l < n3 ->
  get d (build4 n0 n1 n2 n3 f) [i; j; k; l] = f i j k l.
Proof. intros. unfold build4. rewrite get_build; simpl; auto. Qed.

Lemma sum_upto_ext (n : nat) (f g : nat -> R) :
  (forall k, k < n -> f k = g k) -> sum_upto n f = sum_upto n g.
Proof.
  induction n as [|n IH]; intros H; simpl; [reflexivity|].
  rewrite IH by (intros; apply H; lia). rewrite H by lia. reflexivity.
Qed.

(** Every storage position is the offset of one multi-index in range. *)
Lemma unravel (s : list nat) (k : nat) :
  k < numel s -> exists idx, in_range s idx /\ offset s idx = k.
Proof.
  revert k. induction s as [|n s IH]; intros k Hk; simpl in *.
  - exists []. simpl. split; [exact I | lia].
  - assert (Hpos : numel s <> 0) by (intro E; rewrite E in Hk; lia).
    destruct (IH (k mod numel s)) as [idx [Hr Ho]].
    { now apply Nat.mod_upper_bound. }
    exists (k / numel s :: idx). simpl. split.
    + split; [|assumption]. apply Nat.Div0.div_lt_upper_bound. lia.
    + rewrite Ho. rewrite (Nat.div_mod_eq k (numel s)) at 3. lia.
Qed.

Lemma indices_nth (s idx : list nat) :
  in_range s idx -> nth (offset s idx) (indices s) [] = idx.
Proof. intros H. unfold indices. now rewrite tabulate_nth. Qed.

Lemma indices_length (s : list nat) : length (indices s) = numel s.
Proof. apply tabulate_length. Qed.

(** An entry of [nonzero t] is the index of a nonzero entry of [t]. *)
Lemma nonzero_in (t : Tensor Z) (r : list nat) :
  wf t -> In r (nonzero t) -> in_range (shape t) r /\ getZ t r <> 0%Z.
Proof.
  intros Hwf Hin. unfold nonzero in Hin.
  apply in_map_iff in Hin. destruct Hin as [[idx z] [Hfst Hin]]. simpl in Hfst. subst idx.
  apply filter_In in Hin. destruct Hin as [Hin Hnz]. simpl in Hnz.
  apply (In_nth _ _ ([], 0%Z)) in Hin. destruct Hin as [k [Hk Hnth]].
  rewrite length_combine, indices_length, Hwf, Nat.min_id in Hk.
  rewrite combine_nth in Hnth by (rewrite indices_length; now rewrite Hwf).
  destruct (unravel _ Hk) as [idx [Hr Ho]].
  rewrite <- Ho, indices_nth in Hnth by assumption.
  inversion Hnth; subst. split; [assumption|].
  unfold getZ, get. apply negb_true_iff in Hnz. now apply Z.eqb_neq in Hnz.
Qed.

Lemma map2_map {A B C D : Type} (f : B -> C -> D) (g : A -> B) (h : A -> C) (l : list A) :
  map2 f (map g l) (map h l) = map (fun x => f (g x) (h x)) l.
Proof. induction l as [|x l IH]; simpl; [reflexivity|]. now rewrite IH. Qed.

Lemma view_infer_ok {A : Type} (t : Tensor A) (known : list nat) (c : nat) :
  numel known <> 0 -> numel (shape t) = numel known * c ->
  view_infer t known = Ok (mkT (known ++ [c]) (data t)).
Proof.
  intros Hk Ht. unfold view_infer, infer_last.
  destruct (Nat.eqb_spec (numel known) 0) as [E|_]; [contradiction|].
  rewrite Ht, Nat.mul_comm, Nat.Div0.mod_mul, Nat.div_mul by assumption.
  reflexivity.
Qed.

Lemma nth_map_in {A B : Type} (f : A -> B) (l : list A) (n : nat) (d : A) (d' : B) :
  n < length l -> nth n (map f l) d' = f (nth n l d).
Proof.
  intros Hn. rewrite (nth_indep _ d' (f d)) by now rewrite length_map.
  apply map_nth.
Qed.

(** ** The masked assignment *)

Lemma numel_app (s1 s2 : list nat) : numel (s1 ++ s2) = numel s1 * numel s2.
Proof.
  induction s1 as [|n s1 IH]; simpl; [lia|]. rewrite IH. lia.
Qed.

Lemma fill_new_zeros (s : list nat) (v : R) :
  fill_ (new_zeros s) v = mkT s (repeat v (numel s)).
Proof.
  unfold fill_, new_zeros, tmap; simpl. f_equal.
  induction (numel s) as [|n IH]; simpl; [reflexivity|]. now rewrite IH.
Qed.

Lemma scatter_true_block (H : nat) (s : R) (m : list bool) (d vs rest : list R) :
  length vs = H ->
  scatter (repeat true H ++ m) (repeat s H ++ d) (vs ++ rest) = vs ++ scatter m d rest.
Proof.
  revert vs. induction H as [|H IH]; intros vs Hlen.
  - destruct vs; [reflexivity | discriminate].
  - destruct vs as [|v vs]; [discriminate|]. simpl. f_equal. apply IH.
    now inversion Hlen.
Qed.

Lemma scatter_false_block (H : nat) (s : R) (m : list bool) (d vals : list R) :
  scatter (repeat false H ++ m) (repeat s H ++ d) vals = repeat s H ++ scatter m d vals.
Proof.
  induction H as [|H IH]; simpl; [reflexivity|]. now rewrite IH.
Qed.

Section Scatter.
Variable I : Type.
Variable H : nat.
Variable s : R.
Variable G : I -> list R.
Hypothesis G_length : forall i, length (G i) = H.

(** With 0/1 entries the values of the nonzero entries, taken in order,
    land on the positions of the entries equal to 1. *)
Lemma scatter_aligned (ps : list (I * Z)) :
  Forall (fun p => snd p = 0%Z \/ snd p = 1%Z) ps ->
  scatter (mask_of H ps) (repeat s (length ps * H)) (values_of G ps)
  = flat_map (fun p => if Z.eqb (snd p) 1 then G (fst p) else repeat s H) ps.
Proof.
  unfold mask_of, values_of.
  induction ps as [|[i z] ps IH]; intros Hb; [reflexivity|].
  inversion Hb as [|? ? Hz Hps]; subst. simpl in Hz.
  cbn [length Nat.mul map flat_map snd fst filter].
  rewrite map_app, map_repeat, repeat_app.
  destruct Hz as [-> | ->]; cbn [is_nonzero snd Z.eqb negb].
  - rewrite scatter_false_block. f_equal. now apply IH.
  - cbn [flat_map fst]. rewrite scatter_true_block by apply G_length.
    f_equal. now apply IH.
Qed.

Lemma count_true_mask (ps : list (I * Z)) :
  count_true (mask_of H ps)
  = length (filter (fun p => Z.eqb (snd p) 1) ps) * H.
Proof.
  unfold mask_of, count_true.
  induction ps as [|[i z] ps IH]; [reflexivity|].
  cbn [map flat_map snd filter].
  rewrite map_app, filter_app, length_app, IH, map_repeat.
  destruct (Z.eqb z 1); cbn [length Nat.mul].
  - assert (E : filter (fun m : bool => m) (repeat true H) = repeat true H).
    { clear. induction H; simpl; congruence. }
    rewrite E, repeat_length. lia.
  - assert (E : filter (fun m : bool => m) (repeat false H) = []).
    { clear. induction H; simpl; congruence. }
    rewrite E. reflexivity.
Qed.

Lemma length_values (ps : list (I * Z)) :
  length (values_of G ps) = length (filter is_nonzero ps) * H.
Proof.
  unfold values_of. induction (filter is_nonzero ps) as [|p l IH]; [reflexivity|].
  simpl. rewrite length_app, G_length, IH. reflexivity.
Qed.

Lemma filter_one_nonzero (ps : list (I * Z)) :
  Forall (fun p => snd p = 0%Z \/ snd p = 1%Z) ps ->
  filter (fun p => Z.eqb (snd p) 1) ps = filter is_nonzero ps.
Proof.
  induction 1 as [|[i z] ps Hz _ IH]; [reflexivity|].
  simpl in *. unfold is_nonzero at 1. simpl.
  destruct Hz as [-> | ->]; simpl; now rewrite IH.
Qed.

(** An entry that is neither 0 nor 1 is counted as nonzero but is not
    selected by the mask. *)
Lemma filter_one_lt_nonzero (ps : list (I * Z)) :
  Exists (fun p => snd p <> 0%Z /\ snd p <> 1%Z) ps ->
  length (filter (fun p => Z.eqb (snd p) 1) ps) < length (filter is_nonzero ps).
Proof.
  assert (Hle : forall qs : list (I * Z),
             length (filter (fun p => Z.eqb (snd p) 1) qs)
             <= length (filter is_nonzero qs)).
  { induction qs as [|[i z] qs IH]; [reflexivity|].
    simpl. unfold is_nonzero at 1. simpl.
    destruct (Z.eqb_spec z 1) as [->|]; simpl; [lia|].
    destruct (Z.eqb z 0); simpl; lia. }
  induction 1 as [[i z] ps [H0 H1] | [i z] ps _ IH]; simpl;
    unfold is_nonzero at 1; simpl.
  - simpl in H0, H1. apply Z.eqb_neq in H0, H1. rewrite H0, H1. simpl.
    specialize (Hle ps). lia.
  - destruct (Z.eqb_spec z 1) as [->|]; simpl; [lia|].
    destruct (Z.eqb z 0); simpl; lia.
Qed.
End Scatter.

(** ** Sums, dot products and the softmax *)

Lemma sum_upto_shift (n : nat) (f : nat -> R) :
  sum_upto (S n) f = (f 0%nat + sum_upto n (fun k => f (S k)))%R.
Proof.
  induction n as [|n IH].
  - simpl. lra.
  - change (sum_upto (S (S n)) f) with (sum_upto (S n) f + f (S n))%R.
    rewrite IH. simpl. lra.
Qed.

Lemma dot_seq (f g : nat -> R) (st n : nat) :
  dot (map f (seq st n)) (map g (seq st n))
  = sum_upto n (fun c => f (st + c)%nat * g (st + c)%nat)%R.
Proof.
  revert st. induction n as [|n IH]; intros st; [reflexivity|].
  rewrite sum_upto_shift. cbn [seq map dot]. rewrite IH, Nat.add_0_r.
  f_equal. apply sum_upto_ext. intros k _. now rewrite Nat.add_succ_r.
Qed.

Lemma map_seq_upper {A : Type} (u v : nat -> A) (C st n : nat) :
  map (fun c => if c <? C then u c else v (c - C)) (seq (C + st) n) = map v (seq st n).
Proof.
  revert st. induction n as [|n IH]; intros st; [reflexivity|].
  cbn [seq map]. rewrite <- Nat.add_succ_r, IH. f_equal.
  destruct (Nat.ltb_spec (C + st) C); [lia|]. f_equal. lia.
Qed.

Lemma map_seq_split {A : Type} (u v : nat -> A) (C : nat) :
  map (fun c => if c <? C then u c else v (c - C)) (seq 0 (C + C))
  = map u (seq 0 C) ++ map v (seq 0 C).
Proof.
  rewrite seq_app, map_app. f_equal.
  - apply map_ext_in. intros c Hc. apply in_seq in Hc.
    destruct (Nat.ltb_spec c C); [reflexivity | lia].
  - cbn [Nat.add]. rewrite <- (map_seq_upper u v C 0 C). now rewrite Nat.add_0_r.
Qed.

Lemma sum_upto_scale (n : nat) (f : nat -> R) (c : R) :
  sum_upto n (fun k => f k * c)%R = (sum_upto n f * c)%R.
Proof.
  induction n as [|n IH]; simpl; [lra|]. rewrite IH. lra.
Qed.

Lemma sum_upto_const (n : nat) (c : R) : sum_upto n (fun _ => c) = (INR n * c)%R.
Proof.
  induction n as [|n IH]; [simpl; lra|].
  rewrite S_INR. simpl. rewrite IH. lra.
Qed.

Lemma sum_upto_pos (n : nat) (f : nat -> R) :
  0 < n -> (forall k, k < n -> (0 < f k)%R) -> (0 < sum_upto n f)%R.
Proof.
  intros Hn Hf. destruct n as [|n]; [lia|]. clear Hn.
  induction n as [|n IH].
  - simpl. specialize (Hf 0 ltac:(lia)). lra.
  - change (0 < sum_upto (S n) f + f (S n))%R.
    assert (0 < sum_upto (S n) f)%R by (apply IH; intros; apply Hf; lia).
    specialize (Hf (S n) ltac:(lia)). lra.
Qed.

Lemma sum_upto_ge_term (n : nat) (f : nat -> R) (k : nat) :
  k < n -> (forall i, i < n -> (0 < f i)%R) -> (f k <= sum_upto n f)%R.
Proof.
  intros Hk Hf. induction n as [|n IH]; [lia|].
  simpl. destruct (Nat.eq_dec k n) as [->|Hne].
  - destruct n as [|n]; [simpl; lra|].
    assert (0 < sum_upto (S n) f)%R
      by (apply sum_upto_pos; [lia | intros; apply Hf; lia]).
    lra.
  - specialize (Hf n ltac:(lia)) as Hn.
    assert (f k <= sum_upto n f)%R by (apply IH; [lia | intros; apply Hf; lia]).
    lra.
Qed.

(** The softmax weights of a row sum to one. *)
Lemma softmax_row_sum (n : nat) (m : nat -> R) :
  0 < n ->
  sum_upto n (fun j => exp (m j) / sum_upto n (fun k => exp (m k)))%R = 1%R.
Proof.
  intros Hn. unfold Rdiv. rewrite sum_upto_scale.
  apply Rinv_r. apply Rgt_not_eq.
  apply sum_upto_pos; [assumption | intros; apply exp_pos].
Qed.

(** ** The steps of [attention] on a well-formed input *)


Section Attention.
Variable self : GATLayer.
Variables c_in C B N : nat.
Variable x : Tensor R.
Variable adj : Tensor Z.
Hypothesis Hlayer : wf_layer self c_in C.
Hypothesis Hinput : valid_input c_in B N x adj.
Hypothesis HB : 0 < B.
Hypothesis HN : 0 < N.

Let H := num_heads self.

Let proj : Tensor R :=
  build3 B N (C * H) (fun b n o =>
    sum_upto c_in (fun k => getR x [b; n; k] * getR (projection self) [o; k])%R).
Let X : Tensor R := mkT [B; N; H; C] (data proj).
Let Xf : Tensor R := mkT [B * N; H; C] (data proj).
Let E : list (list nat) := nonzero adj.
Let logits : Tensor R :=
  tmap (leaky_relu (leakyrelu self))
       (build2 (length E) H (fun e h =>
          sum_upto (C + C) (fun c => Rmult
            (getR (build3 (length E) H (C + C) (fun e h c =>
                    if c <? C
                    then getR (build3 (length E) H C (fun e h c =>
                           getR Xf [nth e (map (fun r => nth 0 r 0 * N + nth 1 r 0) E) 0; h; c]))
                              [e; h; c]
                    else getR (build3 (length E) H C (fun e h c =>
                           getR Xf [nth e (map (fun r => nth 0 r 0 * N + nth 2 r 0) E) 0; h; c]))
                              [e; h; c - C]))
                 [e; h; c])
            (getR (a self) [h; c])))).

Lemma H_pos : 0 < H.
Proof. apply Hlayer. Qed.

Lemma edges_in_range (r : list nat) :
  In r E ->
  exists b i j, r = [b; i; j] /\ b < B /\ i < N /\ j < N /\ getZ adj [b; i; j] <> 0%Z.
Proof.
  intros Hin. apply nonzero_in in Hin; [|apply Hinput].
  destruct Hin as [Hr Hnz]. rewrite (vi_adj_shape Hinput) in Hr.
  destruct r as [|b [|i [|j [|? ?]]]]; simpl in Hr; try tauto.
  exists b, i, j. intuition.
Qed.

Lemma select_in_range (k : nat) :
  (k = 1 \/ k = 2) ->
  forallb (fun i => i <? B * N) (map (fun r => nth 0 r 0 * N + nth k r 0) E) = true.
Proof.
  intros Hk. apply forallb_forall. intros i Hi.
  apply in_map_iff in Hi. destruct Hi as [r [<- Hr]].
  destruct (edges_in_range _ Hr) as [b [n [j [-> [Hb [Hn [Hj _]]]]]]].
  apply Nat.ltb_lt. destruct Hk as [-> | ->]; simpl; nia.
Qed.

(** Up to the masked assignment every step succeeds, whatever the
    adjacency entries are. *)
Lemma attention_prefix :
  attention self x adj =
  (attn_matrix <- setitem_mask
                    (fill_ (new_zeros (shape adj ++ [H])) sentinel)
                    (eq_one (expand_heads H adj)) (data logits) ;;
   attn_probs <- softmax_dim2 attn_matrix ;;
   Ok (mkLocals B N X E logits attn_matrix attn_probs)).
Proof.
  pose proof H_pos as HH.
  unfold attention.
  unfold size. rewrite (vi_feats_shape Hinput). cbn [nth_error bind].
  unfold linear. rewrite (wf_proj_shape Hlayer), (vi_feats_shape Hinput).
  rewrite Nat.eqb_refl. cbn [bind]. fold H. fold proj.
  rewrite (@view_infer_ok _ proj [B; N; H] C);
    [| simpl; fold H; nia | simpl; fold H; ring].
  cbn [bind app]. fold X.
  rewrite (@view_infer_ok _ X [B * N; H] C);
    [| simpl; fold H; nia | simpl; fold H; ring].
  cbn [bind app]. fold Xf.
  unfold column. rewrite !map_map, !map2_map. fold E.
  unfold index_select0. cbn [shape Xf].
  rewrite !select_in_range by auto. cbn [bind]. rewrite !length_map.
  unfold cat_last. cbn [shape build3 build]. rewrite !Nat.eqb_refl. cbn [andb bind].
  unfold einsum_bhc_hc_bh. cbn [shape build3 build].
  rewrite (wf_a_shape Hlayer). fold H.
  rewrite Nat.eqb_refl.
  replace (C + C =? 2 * C) with true by (symmetry; apply Nat.eqb_eq; lia).
  cbn [andb bind]. reflexivity.
Qed.

Lemma select_nth (k e : nat) :
  nth e (map (fun r => nth 0 r 0 * N + nth k r 0) E) 0
  = nth 0 (nth e E []) 0 * N + nth k (nth e E []) 0.
Proof.
  destruct (Nat.lt_ge_cases e (length E)) as [He | He].
  - rewrite (nth_indep _ 0 ((fun r => nth 0 r 0 * N + nth k r 0) []))
      by now rewrite length_map.
    exact (map_nth (fun r => nth 0 r 0 * N + nth k r 0) E [] e).
  - rewrite (nth_overflow (map _ E)) by (now rewrite length_map).
    rewrite (nth_overflow E) by assumption.
    now destruct k.
Qed.

Lemma logits_get (e h : nat) :
  e < length E -> h < H ->
  getR logits [e; h] = edge_logit self Xf N C (nth e E []) h.
Proof.
  intros He Hh. unfold getR, get, logits, tmap. cbn [shape data build2 build].
  assert (Hoff : offset [length E; H] [e; h] < numel [length E; H])
    by (apply offset_lt; simpl; auto).
  rewrite (nth_map_in _ _ 0%R) by now rewrite tabulate_length.
  - unfold edge_logit. f_equal.
    rewrite tabulate_nth by (simpl; auto).
    apply sum_upto_ext. intros c Hc. f_equal.
    fold (getR (build3 (length E) H (C + C) (fun e h c =>
                    if c <? C
                    then getR (build3 (length E) H C (fun e h c =>
                           getR Xf [nth e (map (fun r => nth 0 r 0 * N + nth 1 r 0) E) 0; h; c]))
                              [e; h; c]
                    else getR (build3 (length E) H C (fun e h c =>
                           getR Xf [nth e (map (fun r => nth 0 r 0 * N + nth 2 r 0) E) 0; h; c]))
                              [e; h; c - C])) [e; h; c]).
    unfold getR at 1. rewrite get_build3 by assumption.
    destruct (Nat.ltb_spec c C) as [Hlt | Hge].
    + unfold getR at 1. rewrite get_build3 by assumption. now rewrite select_nth.
    + unfold getR at 1. rewrite get_build3 by (auto; lia). now rewrite select_nth.
Qed.

Lemma logits_length : length (data logits) = length E * H.
Proof.
  unfold logits, tmap, build2, build. cbn [data].
  rewrite length_map, tabulate_length. simpl. lia.
Qed.

Lemma logits_data :
  data logits = flat_map (fun r => map (edge_logit self Xf N C r) (seq 0 H)) E.
Proof.
  assert (Hlen : length (flat_map (fun r => map (edge_logit self Xf N C r) (seq 0 H)) E)
                 = length E * H).
  { induction E as [|r l IH]; simpl; [reflexivity|].
    now rewrite length_app, length_map, length_seq, IH. }
  apply (nth_ext _ _ 0%R 0%R); [now rewrite logits_length, Hlen|].
  intros n Hn. rewrite logits_length in Hn.
  assert (HH : H <> 0) by (intro E0; rewrite E0 in Hn; lia).
  assert (He : n / H < length E) by (apply Nat.Div0.div_lt_upper_bound; lia).
  assert (Hh : n mod H < H) by now apply Nat.mod_upper_bound.
  assert (Hn' : n = n / H * H + n mod H)
    by (rewrite (Nat.div_mod_eq n H) at 1; lia).
  rewrite Hn' at 2.
  rewrite flat_map_block_nth with (L := H) (d0 := []); auto;
    [| intros; now rewrite length_map, length_seq].
  rewrite (nth_map_in _ _ 0) by now rewrite length_seq.
  rewrite seq_nth by assumption. cbn [Nat.add].
  rewrite <- logits_get by assumption.
  unfold getR, get. f_equal.
  unfold logits, tmap, build2, build. cbn [shape offset numel fold_right]. lia.
Qed.

Let ps : list (list nat * Z) := combine (indices (shape adj)) (data adj).
Let G : list nat -> list R := fun r => map (edge_logit self Xf N C r) (seq 0 H).

(** The dense tensor of logits: the logit of the edge where the adjacency
    entry is 1, the sentinel elsewhere. *)
Let M : Tensor R :=
  mkT [B; N; N; H]
      (flat_map (fun p => if Z.eqb (snd p) 1 then G (fst p) else repeat sentinel H) ps).
(** The local variables once the masked assignment has produced [m]. *)
Let locals_of (m : Tensor R) : Locals :=
  mkLocals B N X E logits m
    (build4 B N N H (fun b i j h =>
       exp (getR m [b; i; j; h]) / sum_upto N (fun k => exp (getR m [b; i; k; h])))%R).

Lemma ps_length : length ps = numel (shape adj).
Proof.
  unfold ps. rewrite length_combine, indices_length, (vi_adj Hinput). apply Nat.min_id.
Qed.

Lemma map_snd_ps : map snd ps = data adj.
Proof.
  unfold ps. pose proof (vi_adj Hinput) as Hwf. unfold wf in Hwf.
  rewrite <- (indices_length (shape adj)) in Hwf.
  revert Hwf. generalize (indices (shape adj)) as ixs. generalize (data adj) as ds.
  induction ds as [|z ds IH]; intros [|i ixs] Hl; simpl in *; try discriminate.
  - reflexivity.
  - f_equal. apply IH. now inversion Hl.
Qed.

Lemma ps_nth (b i j : nat) :
  b < B -> i < N -> j < N ->
  nth (offset [B; N; N] [b; i; j]) ps ([], 0%Z) = ([b; i; j], getZ adj [b; i; j]).
Proof.
  intros Hb Hi Hj. unfold ps.
  rewrite combine_nth by (rewrite indices_length; symmetry; apply Hinput).
  rewrite (vi_adj_shape Hinput).
  rewrite indices_nth by (simpl; auto).
  unfold getZ, get. now rewrite (vi_adj_shape Hinput).
Qed.

Lemma G_length (r : list nat) : length (G r) = H.
Proof. unfold G. now rewrite length_map, length_seq. Qed.

Lemma logits_values : data logits = values_of G ps.
Proof.
  rewrite logits_data. unfold values_of, E, nonzero. fold ps. fold G.
  unfold is_nonzero.
  generalize (filter (fun p : list nat * Z => negb (Z.eqb (snd p) 0)) ps) as l.
  induction l as [|p l IH]; simpl; [reflexivity|]. now rewrite IH.
Qed.

Lemma mask_data : data (eq_one (expand_heads H adj)) = mask_of H ps.
Proof. unfold mask_of. rewrite map_snd_ps. reflexivity. Qed.

Lemma binary_ps :
  binary adj -> Forall (fun p : list nat * Z => snd p = 0%Z \/ snd p = 1%Z) ps.
Proof.
  unfold binary. rewrite <- map_snd_ps. intros Hb.
  apply Forall_forall. intros p Hp.
  rewrite Forall_forall in Hb. apply Hb. now apply in_map.
Qed.

(** With 0/1 entries the masked assignment succeeds. *)
Lemma setitem_binary :
  binary adj ->
  setitem_mask (fill_ (new_zeros (shape adj ++ [H])) sentinel)
               (eq_one (expand_heads H adj)) (data logits) = Ok M.
Proof.
  intros Hb. unfold setitem_mask.
  rewrite fill_new_zeros. cbn [shape data eq_one expand_heads tmap].
  unfold shape_eqb. destruct (list_eq_dec Nat.eq_dec _ _) as [_|Hne]; [|now elim Hne].
  change (map (fun z : Z => Z.eqb z 1) (flat_map (fun z : Z => repeat z H) (data adj)))
    with (data (eq_one (expand_heads H adj))).
  rewrite mask_data, logits_values.
  rewrite count_true_mask, (length_values _ G_length).
  rewrite (filter_one_nonzero (binary_ps Hb)), Nat.eqb_refl.
  rewrite numel_app. cbn [numel fold_right]. rewrite Nat.mul_1_r, <- ps_length.
  rewrite (scatter_aligned sentinel _ G_length (binary_ps Hb)).
  unfold M. now rewrite (vi_adj_shape Hinput).
Qed.

Lemma M_get (b i j h : nat) :
  b < B -> i < N -> j < N -> h < H ->
  getR M [b; i; j; h]
  = if Z.eqb (getZ adj [b; i; j]) 1
    then edge_logit self Xf N C [b; i; j] h else sentinel.
Proof.
  intros Hb Hi Hj Hh. unfold getR, get, M. cbn [shape data].
  replace (offset [B; N; N; H] [b; i; j; h])
    with (offset [B; N; N] [b; i; j] * H + h) by (simpl; ring).
  rewrite flat_map_block_nth with (L := H) (d0 := ([], 0%Z)); auto.
  - rewrite ps_nth by assumption. cbn [fst snd].
    destruct (Z.eqb _ 1).
    + unfold G. rewrite (nth_map_in _ _ 0) by now rewrite length_seq.
      now rewrite seq_nth.
    + now apply nth_repeat_lt.
  - intros p _. destruct (Z.eqb _ 1); [apply G_length | apply repeat_length].
  - rewrite ps_length, (vi_adj_shape Hinput).
    apply (@offset_lt [B; N; N] [b; i; j]). simpl; auto.
Qed.

Lemma setitem_shape (dst : Tensor R) (mask : Tensor bool) (vals : list R) (m : Tensor R) :
  setitem_mask dst mask vals = Ok m -> shape m = shape dst.
Proof.
  unfold setitem_mask. destruct (shape_eqb _ _); [|discriminate].
  destruct (_ =? _); [intros [= <-]; reflexivity|].
  destruct vals as [|v [|? ?]]; try discriminate. intros [= <-]; reflexivity.
Qed.

(** Whenever [attention] returns, its locals are those of the tensor the
    masked assignment produced. *)
Lemma attention_inv (l : Locals) :
  attention self x adj = Ok l ->
  exists m,
    setitem_mask (fill_ (new_zeros (shape adj ++ [H])) sentinel)
                 (eq_one (expand_heads H adj)) (data logits) = Ok m
    /\ shape m = [B; N; N; H] /\ l = locals_of m.
Proof.
  rewrite attention_prefix.
  destruct (setitem_mask _ _ _) as [m|e] eqn:Hset; [|discriminate].
  apply setitem_shape in Hset as Hsh.
  rewrite fill_new_zeros in Hsh. cbn [shape] in Hsh.
  rewrite (vi_adj_shape Hinput) in Hsh. cbn [app] in Hsh.
  cbn [bind]. unfold softmax_dim2. rewrite Hsh. cbn [bind].
  intros [= <-]. exists m. auto.
Qed.

(** On a 0/1 adjacency batch the attention step succeeds. *)
Lemma attention_binary : binary adj -> attention self x adj = Ok (locals_of M).
Proof.
  intros Hb. rewrite attention_prefix, (setitem_binary Hb). reflexivity.
Qed.

Lemma X_flat (b n h c : nat) : getR Xf [b * N + n; h; c] = getR X [b; n; h; c].
Proof.
  unfold getR, get, Xf, X. cbn [shape data]. f_equal. simpl. ring.
Qed.

Lemma X_get (b n h c : nat) :
  b < B -> n < N -> h < H -> c < C ->
  getR X [b; n; h; c]
  = sum_upto c_in (fun k => getR x [b; n; k] * getR (projection self) [(h * C + c)%nat; k])%R.
Proof.
  intros Hb Hn Hh Hc.
  transitivity (getR proj [b; n; h * C + c]).
  - unfold getR, get, X, proj. cbn [shape data build3 build]. f_equal. simpl. ring.
  - unfold getR at 1, proj. rewrite get_build3; auto. nia.
Qed.

Lemma nonzero_complete (b i j : nat) :
  b < B -> i < N -> j < N -> getZ adj [b; i; j] <> 0%Z -> In [b; i; j] E.
Proof.
  intros Hb Hi Hj Hnz. unfold E, nonzero. fold ps.
  change [b; i; j] with (fst ([b; i; j], getZ adj [b; i; j])).
  apply in_map. apply filter_In. split.
  - rewrite <- ps_nth by assumption. apply nth_In.
    rewrite ps_length, (vi_adj_shape Hinput).
    apply (@offset_lt [B; N; N] [b; i; j]). simpl; auto.
  - cbn [snd]. apply negb_true_iff. now apply Z.eqb_neq.
Qed.

Section Locals.
Variable l : Locals.
Hypothesis Hl : attention self x adj = Ok l.

Lemma locals_dims :
  batch_size l = B /\ num_nodes l = N /\ edges l = nonzero adj
  /\ shape (node_feats' l) = [B; N; H; C]
  /\ shape (attn_matrix l) = [B; N; N; H]
  /\ shape (attn_probs l) = [B; N; N; H].
Proof.
  destruct (attention_inv Hl) as [m [_ [Hm ->]]].
  cbn. repeat split; auto.
Qed.

(** The projected features, split by head. *)
Lemma node_feats_entry (b n h c : nat) :
  b < B -> n < N -> h < H -> c < C ->
  getR (node_feats' l) [b; n; h; c]
  = sum_upto c_in
      (fun k => getR x [b; n; k] * getR (projection self) [(h * C + c)%nat; k])%R.
Proof.
  destruct (attention_inv Hl) as [m [_ [Hm ->]]]. apply X_get.
Qed.

(** The logit of an edge is the leaky rectifier of the dot product of the
    head's attention vector with [destination ++ source]. *)
Lemma edge_logit_dot (b i j h : nat) :
  edge_logit self Xf N C [b; i; j] h
  = leaky_relu (leakyrelu self)
      (dot (a_row self C h) (head_feats l C b i h ++ head_feats l C b j h)).
Proof.
  destruct (attention_inv Hl) as [m [_ [Hm ->]]].
  unfold edge_logit, a_row, head_feats. cbn [node_feats' locals_of nth]. f_equal.
  rewrite <- (map_seq_split (fun c => getR X [b; i; h; c])
                            (fun c => getR X [b; j; h; c]) C).
  replace (2 * C) with (C + C) by lia.
  rewrite dot_seq. apply sum_upto_ext. intros c _. cbn [Nat.add].
  rewrite !X_flat. apply Rmult_comm.
Qed.



Lemma edge_in_range (r : list nat) :
  In r (edges l) ->
  exists b i j, r = [b; i; j] /\ b < B /\ i < N /\ j < N /\ getZ adj [b; i; j] <> 0%Z.
Proof.
  destruct (attention_inv Hl) as [m [_ [Hm ->]]]. cbn [edges locals_of].
  apply edges_in_range.
Qed.

Lemma probs_softmax (b i j h : nat) :
  b < B -> i < N -> j < N -> h < H ->
  getR (attn_probs l) [b; i; j; h]
  = (exp (getR (attn_matrix l) [b; i; j; h])
     / sum_upto N (fun k => exp (getR (attn_matrix l) [b; i; k; h])))%R.
Proof.
  intros. destruct (attention_inv Hl) as [m [_ [Hm ->]]].
  cbn [attn_probs attn_matrix locals_of]. unfold getR at 1. now rewrite get_build4.
Qed.

(** With 0/1 entries the dense tensor holds the logit of the edge where
    the adjacency entry is 1 and the sentinel elsewhere. *)
Lemma matrix_entry (b i j h : nat) :
  binary adj -> b < B -> i < N -> j < N -> h < H ->
  getR (attn_matrix l) [b; i; j; h]
  = if Z.eqb (getZ adj [b; i; j]) 1
    then leaky_relu (leakyrelu self)
           (dot (a_row self C h) (head_feats l C b i h ++ head_feats l C b j h))
    else sentinel.
Proof.
  intros Hb Hbb Hi Hj Hh. rewrite <- edge_logit_dot.
  rewrite (attention_binary Hb) in Hl. injection Hl as <-.
  cbn [attn_matrix locals_of]. now apply M_get.
Qed.

(** The rest of [forward] succeeds and combines the heads. *)
Lemma forward_after (flag : bool) :
  exists out,
    fst (forward self x adj flag) = Ok out
    /\ shape out = [B; N; if concat_heads self then H * C else C]
    /\ (concat_heads self = true ->
        forall b n h c, b < B -> n < N -> h < H -> c < C ->
          getR out [b; n; h * C + c] = head_output l b n h c)
    /\ (concat_heads self = false ->
        forall b n c, b < B -> n < N -> c < C ->
          getR out [b; n; c]
          = (sum_upto H (fun h => head_output l b n h c) / INR H)%R).
Proof.
  pose proof H_pos as HH.
  unfold forward. rewrite Hl. cbn [fst].
  destruct (attention_inv Hl) as [m [_ [Hm ->]]].
  set (agg := build4 B N H C (head_output (locals_of m))).
  assert (He : einsum_bijh_bjhc_bihc (attn_probs (locals_of m))
                                     (node_feats' (locals_of m)) = Ok agg).
  { unfold einsum_bijh_bjhc_bihc.
    cbn [locals_of attn_probs node_feats' shape X build4 build].
    rewrite !Nat.eqb_refl. reflexivity. }
  assert (Hagg : forall b n h c, b < B -> n < N -> h < H -> c < C ->
             getR agg [b; n; h; c] = head_output (locals_of m) b n h c).
  { intros. unfold getR at 1, agg. now rewrite get_build4. }
  unfold aggregate. rewrite He. cbn [bind].
  destruct (concat_heads self).
  - cbn [batch_size num_nodes locals_of].
    rewrite (@view_infer_ok _ agg [B; N] (H * C));
      [| simpl; nia | simpl; ring].
    eexists. split; [reflexivity|]. split; [reflexivity|].
    split; [|discriminate]. intros _ b n h c Hb Hn Hh Hc.
    rewrite <- Hagg by assumption.
    unfold getR, get. cbn [shape data app agg build4 build]. f_equal. simpl. ring.
  - eexists. split; [reflexivity|]. split; [reflexivity|].
    split; [discriminate|]. intros _ b n c Hb Hn Hc.
    unfold getR at 1. rewrite get_build3 by assumption. f_equal.
    apply sum_upto_ext. intros h Hh. now apply Hagg.
Qed.
End Locals.

(** *** An adjacency entry that is neither 0 nor 1 *)

Lemma non_binary_ps (b i j : nat) :
  b < B -> i < N -> j < N ->
  getZ adj [b; i; j] <> 0%Z -> getZ adj [b; i; j] <> 1%Z ->
  Exists (fun p : list nat * Z => snd p <> 0%Z /\ snd p <> 1%Z) ps.
Proof.
  intros Hb Hi Hj H0 H1. apply Exists_exists.
  exists ([b; i; j], getZ adj [b; i; j]). split; [|now split].
  rewrite <- ps_nth by assumption. apply nth_In.
  rewrite ps_length, (vi_adj_shape Hinput).
  apply (@offset_lt [B; N; N] [b; i; j]). simpl; auto.
Qed.

Lemma edges_length : length E = length (filter (@is_nonzero (list nat)) ps).
Proof. unfold E, nonzero. fold ps. now rewrite length_map. Qed.

(** The entry is enumerated as an edge but not selected by the mask: the
    logits outnumber the selected positions and the assignment raises,
    unless there is one logit in all. *)
Lemma setitem_non_binary :
  Exists (fun p : list nat * Z => snd p <> 0%Z /\ snd p <> 1%Z) ps ->
  length E * H <> 1 ->
  setitem_mask (fill_ (new_zeros (shape adj ++ [H])) sentinel)
               (eq_one (expand_heads H adj)) (data logits) = Raise ShapeError.
Proof.
  intros Hex Hne. pose proof H_pos as HH. unfold setitem_mask.
  rewrite fill_new_zeros. cbn [shape data eq_one expand_heads tmap].
  unfold shape_eqb. destruct (list_eq_dec Nat.eq_dec _ _) as [_|Hn]; [|now elim Hn].
  change (map (fun z : Z => Z.eqb z 1) (flat_map (fun z : Z => repeat z H) (data adj)))
    with (data (eq_one (expand_heads H adj))).
  rewrite mask_data, count_true_mask, logits_length.
  pose proof (filter_one_lt_nonzero Hex) as Hlt. rewrite <- edges_length in Hlt.
  destruct (Nat.eqb_spec (length E * H)
              (length (filter (fun p : list nat * Z => Z.eqb (snd p) 1) ps) * H)) as [Heq|_];
    [nia|].
  pose proof logits_length as Hlen.
  destruct (data logits) as [|v [|v' vs]]; try reflexivity.
  simpl in Hlen. lia.
Qed.

Lemma map2_mask_false (v : R) (mask : list bool) (dst : list R) :
  Forall (fun m => m = false) mask -> length mask = length dst ->
  map2 (fun (m : bool) x => if m then v else x) mask dst = dst.
Proof.
  intros Hf. revert dst. induction Hf as [|m mask -> _ IH]; intros [|d dst] Hl;
    simpl in *; try discriminate; [reflexivity|].
  f_equal. apply IH. now inversion Hl.
Qed.

Lemma mask_all_false (qs : list (list nat * Z)) :
  filter (fun p : list nat * Z => Z.eqb (snd p) 1) qs = [] ->
  Forall (fun m => m = false) (mask_of H qs).
Proof.
  unfold mask_of. induction qs as [|[r z] qs IH]; intros Hf; [constructor|].
  cbn [map flat_map snd filter] in *.
  destruct (Z.eqb z 1) eqn:Ez; [discriminate|].
  rewrite map_app. apply Forall_app. split; [|now apply IH].
  rewrite map_repeat, Ez. apply Forall_forall. intros m Hm.
  now apply repeat_spec in Hm.
Qed.

Lemma mask_length : length (mask_of H ps) = numel (shape adj) * H.
Proof.
  unfold mask_of. rewrite length_map, <- ps_length, <- (length_map snd ps).
  induction (map snd ps) as [|z zs IH]; [reflexivity|].
  simpl. now rewrite length_app, repeat_length, IH.
Qed.

(** With a single logit in all, the value is broadcast to the empty
    selection and every position keeps the sentinel. *)
Lemma setitem_non_binary_single :
  Exists (fun p : list nat * Z => snd p <> 0%Z /\ snd p <> 1%Z) ps ->
  length E * H = 1 ->
  setitem_mask (fill_ (new_zeros (shape adj ++ [H])) sentinel)
               (eq_one (expand_heads H adj)) (data logits)
  = Ok (mkT [B; N; N; H] (repeat sentinel (numel [B; N; N; H]))).
Proof.
  intros Hex Hone. unfold setitem_mask.
  rewrite fill_new_zeros. cbn [shape data eq_one expand_heads tmap].
  unfold shape_eqb. destruct (list_eq_dec Nat.eq_dec _ _) as [_|Hn]; [|now elim Hn].
  change (map (fun z : Z => Z.eqb z 1) (flat_map (fun z : Z => repeat z H) (data adj)))
    with (data (eq_one (expand_heads H adj))).
  rewrite mask_data, count_true_mask, logits_length.
  pose proof (filter_one_lt_nonzero Hex) as Hlt. rewrite <- edges_length in Hlt.
  assert (Hz : filter (fun p : list nat * Z => Z.eqb (snd p) 1) ps = []).
  { apply length_zero_iff_nil.
    pose proof (proj1 (Nat.eq_mul_1 _ _) Hone) as [He1 _]. lia. }
  rewrite Hz, Hone. cbn [length Nat.mul Nat.eqb].
  pose proof logits_length as Hlen. rewrite Hone in Hlen.
  destruct (data logits) as [|v [|v' vs]]; try discriminate.
  rewrite map2_mask_false.
  - now rewrite (vi_adj_shape Hinput).
  - now apply mask_all_false.
  - rewrite mask_length, repeat_length, numel_app. simpl. lia.
Qed.

Lemma attention_non_binary (b i j : nat) :
  b < B -> i < N -> j < N ->
  getZ adj [b; i; j] <> 0%Z -> getZ adj [b; i; j] <> 1%Z ->
  (length (nonzero adj) * H <> 1 -> attention self x adj = Raise ShapeError)
  /\ (length (nonzero adj) * H = 1 ->
      exists l, attention self x adj = Ok l
                /\ attn_matrix l = mkT [B; N; N; H] (repeat sentinel (numel [B; N; N; H]))).
Proof.
  intros Hb Hi Hj H0 H1.
  pose proof (non_binary_ps Hb Hi Hj H0 H1) as Hex.
  rewrite attention_prefix. split; intros Hlen.
  - now rewrite (setitem_non_binary Hex Hlen).
  - rewrite (setitem_non_binary_single Hex Hlen). cbn [bind softmax_dim2 shape].
    eexists. split; reflexivity.
Qed.

Lemma attention_total : binary adj -> exists l, attention self x adj = Ok l.
Proof. intros Hb. eexists. now apply attention_binary. Qed.
End Attention.

(** ** Properties of the attention probabilities *)


Lemma exp_sub (u v : R) : exp (u - v) = (exp u / exp v)%R.
Proof. unfold Rminus, Rdiv. now rewrite exp_plus, exp_Ropp. Qed.

(** A softmax weight is positive and at most [exp] of the gap to any other
    entry of its row. *)
Lemma softmax_weight_bound (n : nat) (m : nat -> R) (j k : nat) :
  j < n -> k < n ->
  (0 < exp (m j) / sum_upto n (fun i => exp (m i))
   /\ exp (m j) / sum_upto n (fun i => exp (m i)) <= exp (m j - m k))%R.
Proof.
  intros Hj Hk.
  assert (Hs : (0 < sum_upto n (fun i => exp (m i)))%R)
    by (apply sum_upto_pos; [lia | intros; apply exp_pos]).
  assert (Hge : (exp (m k) <= sum_upto n (fun i => exp (m i)))%R)
    by (apply (@sum_upto_ge_term n (fun i => exp (m i)) k);
        [assumption | intros; apply exp_pos]).
  pose proof (exp_pos (m j)) as Hpj. pose proof (exp_pos (m k)) as Hpk.
  split.
  - apply Rdiv_lt_0_compat; assumption.
  - rewrite exp_sub. unfold Rdiv. apply Rmult_le_compat_l; [lra|].
    apply Rinv_le_contravar; assumption.
Qed.

(** C1.  On a well-formed input whose adjacency entries are 0 or 1 and whose
    every row holds a 1, the attention probabilities that [forward] computes
    sum to one over the source nodes, for every graph, destination node and
    head (scalars are real numbers, so the sum is exactly 1). *)
Theorem attn_probs_rows_sum_to_one
        (self : GATLayer) (c_in C B N : nat) (x : Tensor R) (adj : Tensor Z) :
  wf_layer self c_in C ->
  valid_input c_in B N x adj ->
  0 < B -> 0 < N ->
  binary adj ->
  (forall b i, b < B -> i < N -> exists j, j < N /\ getZ adj [b; i; j] = 1%Z) ->
  exists l,
    attention self x adj = Ok l
    /\ forall b i h, b < B -> i < N -> h < num_heads self ->
         sum_upto N (fun j => getR (attn_probs l) [b; i; j; h]) = 1%R.
Proof.
  intros Hlayer Hinput HB HN Hbin _.
  destruct (attention_total Hlayer Hinput HB HN Hbin) as [l Hl].
  exists l. split; [assumption|]. intros b i h Hb Hi Hh.
  rewrite (@sum_upto_ext N _
             (fun j => exp (getR (attn_matrix l) [b; i; j; h])
                       / sum_upto N (fun k => exp (getR (attn_matrix l) [b; i; k; h])))%R).
  - now apply softmax_row_sum.
  - intros j Hj. now apply (probs_softmax Hlayer Hinput).
Qed.



(** ** Construction *)

Lemma xavier_wf (rng : nat -> R) (start : nat) (s : list nat) :
  wf (xavier_normal_ rng start s).
Proof. unfold wf, xavier_normal_. cbn [data shape]. now rewrite length_map, length_seq. Qed.

Lemma init_wf (rng : nat -> R) (c_in c_out H : nat) (concat : bool) (alpha : R)
      (self : GATLayer) :
  0 < H ->
  init rng c_in c_out H concat alpha = Ok self ->
  num_heads self = H /\ concat_heads self = concat
  /\ wf_layer self c_in (if concat then c_out / H else c_out)
  /\ (concat = true -> c_out mod H = 0).
Proof.
  intros HH. unfold init.
  destruct concat.
  - destruct (Nat.eqb_spec H 0) as [->|_]; [lia|].
    destruct (Nat.eqb_spec (c_out mod H) 0) as [Hm|_]; [|discriminate].
    cbn [bind]. intros [= <-].
    split; [reflexivity|]. split; [reflexivity|]. split; [|auto].
    constructor; cbn [num_heads projection a]; auto using xavier_wf.
  - cbn [bind]. intros [= <-].
    split; [reflexivity|]. split; [reflexivity|]. split; [|discriminate].
    constructor; cbn [num_heads projection a]; auto using xavier_wf.
Qed.

(** C4.  For positive dimensions, construction with [concat_heads] true fails
    exactly when [c_out mod num_heads] is not zero, and it then fails with the
    assertion error; when it succeeds the heads have width
    [c_out / num_heads].  With [concat_heads] false nothing is checked and the
    heads have width [c_out]. *)
Theorem init_checks_divisibility
        (rng : nat -> R) (c_in c_out H : nat) (alpha : R) :
  0 < c_in -> 0 < c_out -> 0 < H ->
  (is_ok (init rng c_in c_out H true alpha) = false <-> c_out mod H <> 0)
  /\ (c_out mod H <> 0 -> init rng c_in c_out H true alpha = Raise AssertionError)
  /\ (c_out mod H = 0 ->
      exists self, init rng c_in c_out H true alpha = Ok self
                   /\ wf_layer self c_in (c_out / H)
                   /\ shape (projection self) = [c_out / H * H; c_in]
                   /\ shape (a self) = [H; 2 * (c_out / H)])
  /\ (exists self, init rng c_in c_out H false alpha = Ok self
                   /\ wf_layer self c_in c_out
                   /\ shape (projection self) = [c_out * H; c_in]
                   /\ shape (a self) = [H; 2 * c_out]).
Proof.
  intros _ _ HH.
  assert (Hfail : c_out mod H <> 0 ->
                  init rng c_in c_out H true alpha = Raise AssertionError).
  { intros Hm. unfold init.
    destruct (Nat.eqb_spec H 0) as [->|_]; [lia|].
    destruct (Nat.eqb_spec (c_out mod H) 0); [contradiction | reflexivity]. }
  assert (Hok : c_out mod H = 0 ->
                exists self, init rng c_in c_out H true alpha = Ok self
                   /\ wf_layer self c_in (c_out / H)
                   /\ shape (projection self) = [c_out / H * H; c_in]
                   /\ shape (a self) = [H; 2 * (c_out / H)]).
  { intros Hm. unfold init.
    destruct (Nat.eqb_spec H 0) as [->|_]; [lia|].
    rewrite Hm. cbn [Nat.eqb bind]. eexists. split; [reflexivity|].
    split; [|split; reflexivity].
    constructor; cbn [num_heads projection a]; auto using xavier_wf. }
  repeat split.
  - intros Hf Hm. destruct (Hok Hm) as [self [E _]]. rewrite E in Hf. discriminate.
  - intros Hm. now rewrite (Hfail Hm).
  - exact Hfail.
  - exact Hok.
  - unfold init. cbn [bind]. eexists. split; [reflexivity|].
    split; [|split; reflexivity].
    constructor; cbn [num_heads projection a]; auto using xavier_wf.
Qed.

(** ** The returned value *)

(** C5.  For a layer built by [init] with a positive number of heads, a
    non-empty feature batch [B, N, c_in] and a 0/1 adjacency batch
    [B, N, N], [forward] returns a tensor of shape [B, N, c_out] in both
    branches: the concatenation of the head outputs in head order when
    [concat_heads] is true, their mean over the heads otherwise. *)
Theorem forward_output_shape
        (rng : nat -> R) (c_in c_out H : nat) (concat : bool) (alpha : R)
        (self : GATLayer) (B N : nat) (x : Tensor R) (adj : Tensor Z) (flag : bool) :
  0 < H ->
  init rng c_in c_out H concat alpha = Ok self ->
  valid_input c_in B N x adj ->
  0 < B -> 0 < N ->
  binary adj ->
  exists l out,
    attention self x adj = Ok l
    /\ fst (forward self x adj flag) = Ok out
    /\ shape out = [B; N; c_out]
    /\ (concat = true ->
        forall b n h c, b < B -> n < N -> h < H -> c < c_out / H ->
          getR out [b; n; h * (c_out / H) + c] = head_output l b n h c)
    /\ (concat = false ->
        forall b n c, b < B -> n < N -> c < c_out ->
          getR out [b; n; c]
          = (sum_upto H (fun h => head_output l b n h c) / INR H)%R).
Proof.
  intros HH Hinit Hinput HB HN Hbin.
  destruct (init_wf _ _ _ _ _ HH Hinit) as [Hh [Hc [Hlayer Hdiv]]].
  destruct (attention_total Hlayer Hinput HB HN Hbin) as [l Hl].
  destruct (forward_after Hlayer Hinput HB HN Hl flag)
    as [out [Hout [Hshape [Hcat Hmean]]]].
  exists l, out. rewrite Hh, Hc in *. repeat split; try assumption.
  - rewrite Hshape. destruct concat; [|reflexivity].
    do 3 f_equal. specialize (Hdiv eq_refl).
    pose proof (Nat.div_mod_eq c_out H) as E. rewrite Hdiv in E. lia.
  - intros ->. now apply Hcat.
  - intros ->. now apply Hmean.
Qed.

(** ** Degenerate rows *)


(** The softmax of an all-sentinel row is uniform. *)
Lemma isolated_row_probs
      (self : GATLayer) (c_in C B N : nat) (x : Tensor R) (adj : Tensor Z)
      (l : Locals) (b i : nat) :
  wf_layer self c_in C ->
  valid_input c_in B N x adj ->
  binary adj ->
  attention self x adj = Ok l ->
  b < B -> i < N ->
  (forall j, j < N -> getZ adj [b; i; j] = 0%Z) ->
  forall j h, j < N -> h < num_heads self ->
    getR (attn_matrix l) [b; i; j; h] = sentinel
    /\ getR (attn_probs l) [b; i; j; h] = (/ INR N)%R.
Proof.
  intros Hlayer Hinput Hbin Hl Hb Hi Hrow.
  assert (HB : 0 < B) by lia. assert (HN : 0 < N) by lia.
  assert (Hm : forall j h, j < N -> h < num_heads self ->
                 getR (attn_matrix l) [b; i; j; h] = sentinel).
  { intros j h Hj Hh.
    rewrite (matrix_entry Hlayer Hinput HB HN Hl Hbin Hb Hi Hj Hh).
    now rewrite (Hrow j Hj). }
  intros j h Hj Hh. split; [now apply Hm|].
  rewrite (probs_softmax Hlayer Hinput HB HN Hl Hb Hi Hj Hh).
  rewrite (@sum_upto_ext N _ (fun _ => exp sentinel))
    by (intros k Hk; now rewrite Hm).
  rewrite Hm by assumption. rewrite sum_upto_const.
  pose proof (exp_pos sentinel). assert (INR N <> 0%R) by (apply not_0_INR; lia).
  field. split; first [assumption | lra].
Qed.



(** ** Examples *)



(** ** An adjacency entry outside 0 and 1 *)

(** C6, as amended.  [forward] does not validate the adjacency entries.  An
    entry that is neither 0 nor 1 is enumerated as an edge and gets a logit,
    but the mask [== 1] does not select its position: the masked assignment
    then has more values than positions and [forward] fails with a shape
    mismatch.  Only when there is one logit in all (one nonzero entry, one
    head) is the value broadcast to the empty selection; [forward] then goes on
    with every position of the dense tensor at the sentinel. *)
Theorem non_binary_entry_shape_mismatch
        (self : GATLayer) (c_in C B N : nat) (x : Tensor R) (adj : Tensor Z)
        (flag : bool) (b i j : nat) :
  wf_layer self c_in C ->
  valid_input c_in B N x adj ->
  b < B -> i < N -> j < N ->
  getZ adj [b; i; j] <> 0%Z -> getZ adj [b; i; j] <> 1%Z ->
  In [b; i; j] (nonzero adj)
  /\ (length (nonzero adj) * num_heads self <> 1 ->
      attention self x adj = Raise ShapeError
      /\ forward self x adj flag = (Raise ShapeError, []))
  /\ (length (nonzero adj) * num_heads self = 1 ->
      exists l, attention self x adj = Ok l
                /\ forall b' i' j' h, b' < B -> i' < N -> j' < N -> h < num_heads self ->
                     getR (attn_matrix l) [b'; i'; j'; h] = sentinel).
Proof.
  intros Hlayer Hinput Hb Hi Hj H0 H1.
  assert (HB : 0 < B) by lia. assert (HN : 0 < N) by lia.
  destruct (attention_non_binary Hlayer Hinput HB HN Hb Hi Hj H0 H1) as [Hraise Hone].
  split; [now apply (nonzero_complete Hinput)|]. split.
  - intros Hlen. specialize (Hraise Hlen). split; [assumption|].
    unfold forward. now rewrite Hraise.
  - intros Hlen. destruct (Hone Hlen) as [l [Hl Hm]].
    exists l. split; [assumption|]. intros b' i' j' h Hb' Hi' Hj' Hh.
    rewrite Hm. unfold getR, get. cbn [shape data].
    apply nth_repeat_lt. apply (@offset_lt [B; N; N; num_heads self] [b'; i'; j'; h]).
    simpl; auto.
Qed.


(** ** Facts on the heap *)

Lemma nth_error_snoc_old {A : Type} (h : list A) (s : A) (l : nat) :
  l < length h -> nth_error (h ++ [s]) l = nth_error h l.
Proof. intros Hl. now apply nth_error_app1. Qed.

Lemma nth_error_snoc_new {A : Type} (h : list A) (s : A) :
  nth_error (h ++ [s]) (length h) = Some s.
Proof. rewrite nth_error_app2 by lia. now rewrite Nat.sub_diag. Qed.

Lemma length_replace_nth {A : Type} (l : nat) (x : A) (xs : list A) :
  length (replace_nth l x xs) = length xs.
Proof.
  revert l. induction xs as [|y xs IH]; intros [|l]; simpl; auto.
Qed.

Lemma nth_error_replace_same {A : Type} (l : nat) (x : A) (xs : list A) :
  l < length xs -> nth_error (replace_nth l x xs) l = Some x.
Proof.
  revert l. induction xs as [|y xs IH]; intros [|l] Hl; simpl in *; try lia; auto.
  apply IH. lia.
Qed.

Lemma nth_error_replace_other {A : Type} (l l' : nat) (x : A) (xs : list A) :
  l <> l' -> nth_error (replace_nth l x xs) l' = nth_error xs l'.
Proof.
  revert l l'. induction xs as [|y xs IH]; intros [|l] [|l'] Hne; simpl; auto; try lia.
Qed.

Ltac heap_len :=
  repeat first [rewrite length_app | rewrite length_replace_nth];
  cbn [length]; lia.

Ltac heap_lookup_in E :=
  repeat first
    [ rewrite nth_error_snoc_new in E
    | rewrite nth_error_snoc_old in E by heap_len
    | rewrite nth_error_replace_same in E by heap_len
    | rewrite nth_error_replace_other in E by heap_len
    | rewrite (proj2 (Nat.ltb_lt _ _)) in E by heap_len
    | match goal with
      | Hh : nth_error (heap _) _ = Some _ |- _ => rewrite Hh in E
      | Hh : nth_error (heap _) _ = None |- _ => rewrite Hh in E
      end ].

Ltac heap_lookup :=
  repeat first
    [ rewrite nth_error_snoc_new
    | rewrite nth_error_snoc_old by heap_len
    | rewrite nth_error_replace_same by heap_len
    | rewrite nth_error_replace_other by heap_len ].

(** One step of symbolic execution of a monadic computation in [E]. *)
Ltac run_in E :=
  cbv beta iota delta
      [bindM ret lift load alloc store print read_real read_int read_bool
       read_rows read_idx new_real new_bool view_h fill_st setitem_st
       new_zeros fill_ eq_one expand_heads tmap] in E;
  cbn [heap stdout loc hshape shape data fst snd] in E;
  repeat (progress (heap_lookup_in E; cbv beta iota in E);
          cbn [heap stdout loc hshape shape data fst snd] in E).

(** The computation has stopped: [E] and [Ep] give the two outcomes. *)
Ltac stopped E Ep :=
  inversion E; inversion Ep; subst; cbn [fst snd heap stdout];
  split; [intros; heap_lookup; reflexivity |];
  split; [rewrite ?app_nil_r; reflexivity |];
  first [ reflexivity
        | eexists; split; [reflexivity |];
          split; [cbn [heap loc]; heap_lookup; reflexivity | reflexivity] ].

Ltac case_op E Ep op :=
  lazymatch type of Ep with context [op] => idtac end;
  destruct op eqn:?;
  repeat match goal with t : Tensor R |- _ => destruct t end;
  run_in E;
  cbn [bind shape data attn_probs node_feats' batch_size num_nodes] in Ep;
  [| solve [stopped E Ep]].

Ltac step E Ep :=
  match type of E with
  | context [match ?op with Ok _ => _ | Raise _ => _ end] =>
      lazymatch op with
      | context [match _ with _ => _ end] => fail
      | _ => case_op E Ep op
      end
  end.

(** On a heap that holds the inputs and the parameters, [forward_st]
    computes what [forward] computes, prints what it prints and keeps the
    storages that existed before the call. *)
Lemma forward_st_refines
      (selfh : GATLayerH) (nf adj : handle) (flag : bool) (w : world)
        (x W av : Tensor R) (A : Tensor Z) :
  holds_real w nf x -> holds_int w adj A ->
  holds_real w (projection_h selfh) W -> holds_real w (a_h selfh) av ->
  let self := mkGAT (num_heads_h selfh) (concat_heads_h selfh) W av (leakyrelu_h selfh) in
  let rw := forward_st selfh nf adj flag w in
  (forall l, l < length (heap w) -> nth_error (heap (snd rw)) l = nth_error (heap w) l)
  /\ stdout (snd rw) = stdout w ++ snd (forward self x A flag)
  /\ match fst (forward self x A flag) with
     | Ok out => exists h, fst rw = Ok h /\ holds_real (snd rw) h out
     | Raise e => fst rw = Raise e
     end.
Proof.
  intros [Hx Hxs] [HA HAs] [HW HWs] [Ha Has] self rw.
  destruct x as [xs xd], A as [As Ad], W as [Ws Wd], av as [avs avd].
  destruct nf as [nfl nfs], adj as [adjl adjs], selfh as [H concat [pl psh] [al ash] alpha].
  cbn [loc hshape shape data projection_h a_h num_heads_h concat_heads_h leakyrelu_h] in *.
  subst nfs adjs psh ash.
  assert (Hnfl : nfl < length (heap w)) by (apply nth_error_Some; congruence).
  assert (Hadjl : adjl < length (heap w)) by (apply nth_error_Some; congruence).
  assert (Hpl : pl < length (heap w)) by (apply nth_error_Some; congruence).
  assert (Hal : al < length (heap w)) by (apply nth_error_Some; congruence).
  subst rw self.
  destruct (forward_st _ _ _ _ _) as [r w'] eqn:E.
  destruct (forward _ _ _ _) as [pr pp] eqn:Ep.
  cbn [fst snd].
  unfold forward, attention, aggregate in Ep. unfold forward_st in E.
  cbn [num_heads concat_heads projection a leakyrelu
       loc hshape shape data projection_h a_h num_heads_h concat_heads_h leakyrelu_h] in E, Ep.
  unfold size_h, size in E, Ep. cbn [shape hshape] in E, Ep.
  unfold view_infer in Ep.
  unfold new_zeros, fill_, eq_one, expand_heads, tmap in Ep.
  run_in E.
  case_op E Ep (nth_error xs 0).
  case_op E Ep (nth_error xs 1).
  repeat step E Ep.
  match goal with
  | Hs : setitem_mask _ _ _ = Ok _ |- _ =>
      apply setitem_shape in Hs; cbn [shape] in Hs; subst
  end.
  destruct flag; run_in E; repeat step E Ep;
    (destruct concat; run_in E; repeat step E Ep; stopped E Ep).
Qed.

(** *** Two runs of [forward_st], or one run and its frame *)

Ltac both_stopped E1 E0 :=
  inversion E1; inversion E0; subst; cbn [fst snd heap stdout];
  repeat split; auto; try (right; eexists; reflexivity).

Ltac both_case E1 E0 op :=
  lazymatch op with
  | context [match _ with _ => _ end] => fail
  | _ => idtac
  end;
  lazymatch type of E0 with context [op] => idtac end;
  destruct op eqn:?;
  repeat match goal with t : Tensor R |- _ => destruct t end;
  run_in E1; run_in E0; try solve [both_stopped E1 E0].

Ltac both_step E1 E0 :=
  match type of E1 with
  | context [match ?op with Ok _ => _ | Raise _ => _ end] => both_case E1 E0 op
  | context [match ?op with Some _ => _ | None => _ end] => both_case E1 E0 op
  | context [match ?op with
             | SReal _ => _ | SInt _ => _ | SRows _ => _ | SIdx _ => _ | SBool _ => _
             end] => both_case E1 E0 op
  | context [if ?op then _ else _] => both_case E1 E0 op
  end.

(** On any heap and for any handles, the two values of the print flag give
    the same result and the same heap; only the output stream differs. *)
Lemma print_flag_heap (selfh : GATLayerH) (nf adj : handle) (w : world) :
  let r1 := forward_st selfh nf adj true w in
  let r0 := forward_st selfh nf adj false w in
  fst r1 = fst r0
  /\ heap (snd r1) = heap (snd r0)
  /\ stdout (snd r0) = stdout w
  /\ (stdout (snd r1) = stdout w \/ exists t, stdout (snd r1) = stdout w ++ [t]).
Proof.
  intros r1 r0. subst r1 r0.
  destruct (forward_st selfh nf adj true w) as [r1 w1] eqn:E1.
  destruct (forward_st selfh nf adj false w) as [r0 w0] eqn:E0.
  cbn [fst snd].
  destruct nf as [nfl nfs], adj as [adjl adjs], selfh as [H concat [pl psh] [al ash] alpha].
  unfold forward_st, size_h in E1, E0.
  cbn [loc hshape projection_h a_h num_heads_h concat_heads_h leakyrelu_h] in E1, E0.
  run_in E1. run_in E0.
  repeat both_step E1 E0.
Qed.

Ltac frame_stopped E1 :=
  inversion E1; subst; cbn [heap]; intros; heap_lookup; reflexivity.

Ltac frame_case E1 op :=
  lazymatch op with
  | context [match _ with _ => _ end] => fail
  | _ => idtac
  end;
  destruct op eqn:?;
  run_in E1; try solve [frame_stopped E1].

Ltac frame_step E1 :=
  match type of E1 with
  | context [match ?op with Ok _ => _ | Raise _ => _ end] => frame_case E1 op
  | context [match ?op with Some _ => _ | None => _ end] => frame_case E1 op
  | context [match ?op with
             | SReal _ => _ | SInt _ => _ | SRows _ => _ | SIdx _ => _ | SBool _ => _
             end] => frame_case E1 op
  | context [if ?op then _ else _] => frame_case E1 op
  end.

(** X11.  On any heap and for any handles, whether it returns or raises,
    [forward_st] leaves the storages that existed before the call as they
    were. *)
Lemma forward_st_frame (selfh : GATLayerH) (nf adj : handle) (flag : bool) (w : world) :
  forall l, l < length (heap w) ->
    nth_error (heap (snd (forward_st selfh nf adj flag w))) l = nth_error (heap w) l.
Proof.
  destruct (forward_st selfh nf adj flag w) as [r1 w1] eqn:E1.
  cbn [fst snd].
  destruct nf as [nfl nfs], adj as [adjl adjs], selfh as [H concat [pl psh] [al ash] alpha].
  unfold forward_st, size_h in E1.
  cbn [loc hshape projection_h a_h num_heads_h concat_heads_h leakyrelu_h] in E1.
  run_in E1.
  repeat frame_step E1.
Qed.

(** C9.  Run on a heap that holds the node features, the adjacency batch and
    the two parameters, [forward_st] leaves the four of them, and every other
    storage that existed before the call, as they were (the in-place writes go
    to a storage the call itself allocated); it adds to the output stream
    exactly what [forward] prints, and it returns a handle on the tensor that
    [forward] computes from the contents of the inputs and of the parameters,
    or raises as [forward] does. *)
Theorem forward_st_frame_and_purity
        (selfh : GATLayerH) (nf adj : handle) (flag : bool) (w : world)
        (x W av : Tensor R) (A : Tensor Z) :
  holds_real w nf x -> holds_int w adj A ->
  holds_real w (projection_h selfh) W -> holds_real w (a_h selfh) av ->
  let self := mkGAT (num_heads_h selfh) (concat_heads_h selfh) W av (leakyrelu_h selfh) in
  let rw := forward_st selfh nf adj flag w in
  holds_real (snd rw) nf x
  /\ holds_int (snd rw) adj A
  /\ holds_real (snd rw) (projection_h selfh) W
  /\ holds_real (snd rw) (a_h selfh) av
  /\ (forall l, l < length (heap w) -> nth_error (heap (snd rw)) l = nth_error (heap w) l)
  /\ stdout (snd rw) = stdout w ++ snd (forward self x A flag)
  /\ match fst (forward self x A flag) with
     | Ok out => exists h, fst rw = Ok h /\ holds_real (snd rw) h out
     | Raise e => fst rw = Raise e
     end.
Proof.
  intros Hx HA HW Ha self rw.
  pose proof (@forward_st_refines selfh nf adj flag w x W av A Hx HA HW Ha) as Href.
  cbv zeta in Href. fold self rw in Href.
  destruct Href as [Hframe [Hout Hres]].
  assert (Hkeep : forall l s, nth_error (heap w) l = Some s ->
                              nth_error (heap (snd rw)) l = Some s).
  { intros l s Hl. rewrite Hframe; [assumption|].
    apply nth_error_Some. congruence. }
  destruct Hx as [Hx Hxs], HA as [HA HAs], HW as [HW HWs], Ha as [Ha Has].
  repeat split; auto.
Qed.

(** C8.  [forward] returns the same value whether or not the print flag is
    set; without the flag nothing is printed, and with it the only thing
    printed is the attention-probability tensor permuted to
    [B, num_heads, N, N].  On the heap the two runs return the same result and
    leave the same storages; they differ in the output stream only. *)
Theorem print_flag_keeps_result
        (self : GATLayer) (x : Tensor R) (adj : Tensor Z)
        (selfh : GATLayerH) (nf adjh : handle) (w : world) :
  fst (forward self x adj true) = fst (forward self x adj false)
  /\ snd (forward self x adj false) = []
  /\ snd (forward self x adj true)
     = match attention self x adj with
       | Ok l => [permute_0312 (attn_probs l)]
       | Raise _ => []
       end
  /\ fst (forward_st selfh nf adjh true w) = fst (forward_st selfh nf adjh false w)
  /\ heap (snd (forward_st selfh nf adjh true w))
     = heap (snd (forward_st selfh nf adjh false w))
  /\ stdout (snd (forward_st selfh nf adjh false w)) = stdout w.
Proof.
  pose proof (print_flag_heap selfh nf adjh w) as Hst.
  cbv zeta in Hst. destruct Hst as [Hr [Hh [Ho _]]].
  split; [|split; [|split; [|split; [exact Hr | split; [exact Hh | exact Ho]]]]];
    unfold forward; destruct (attention self x adj); reflexivity.
Qed.

(** ** The examples *)

Lemma layer_wf : wf_layer Examples.layer 2 1.
Proof. constructor; cbn; auto; reflexivity. Qed.

Lemma feats_loops_valid : valid_input 2 1 2 Examples.feats Examples.adj_loops.
Proof. constructor; reflexivity. Qed.

Lemma feats_isolated_valid : valid_input 2 1 2 Examples.feats Examples.adj_isolated.
Proof. constructor; reflexivity. Qed.

Lemma feats_two_valid : valid_input 2 1 2 Examples.feats Examples.adj_two.
Proof. constructor; reflexivity. Qed.



Ltac binary_entries :=
  unfold binary; cbn [data];
  repeat (apply Forall_cons; [first [left; reflexivity | right; reflexivity] |]);
  apply Forall_nil.


(** An entry equal to 2: the masked assignment raises and [forward] returns
    nothing, so no position is left at the sentinel. *)
Lemma entry_two_raises :
  getZ Examples.adj_two [0; 0; 0] = 2%Z
  /\ attention Examples.layer Examples.feats Examples.adj_two = Raise ShapeError
  /\ forward Examples.layer Examples.feats Examples.adj_two false = (Raise ShapeError, []).
Proof. repeat split; reflexivity. Qed.

(** ** The theorems at the examples *)

Lemma attn_probs_rows_sum_to_one_witness :
  exists l,
    attention Examples.layer Examples.feats Examples.adj_loops = Ok l
    /\ forall b i h, b < 1 -> i < 2 -> h < num_heads Examples.layer ->
         sum_upto 2 (fun j => getR (attn_probs l) [b; i; j; h]) = 1%R.
Proof.
  apply (@attn_probs_rows_sum_to_one Examples.layer 2 1 1 2
           Examples.feats Examples.adj_loops).
  - exact layer_wf.
  - exact feats_loops_valid.
  - lia.
  - lia.
  - binary_entries.
  - intros b i Hb Hi. assert (b = 0) by lia. subst b.
    destruct i as [|[|i]]; [exists 0 | exists 1 | lia]; split; try lia; reflexivity.
Defined.



Lemma init_checks_divisibility_witness :
  init Examples.rng 2 10 3 true 0.2%R = Raise AssertionError
  /\ exists self, init Examples.rng 2 10 5 true 0.2%R = Ok self
                  /\ shape (a self) = [5; 2 * (10 / 5)].
Proof.
  split.
  - destruct (@init_checks_divisibility Examples.rng 2 10 3 0.2%R
                ltac:(lia) ltac:(lia) ltac:(lia)) as [_ [Hfail _]].
    apply Hfail. cbn. lia.
  - destruct (@init_checks_divisibility Examples.rng 2 10 5 0.2%R
                ltac:(lia) ltac:(lia) ltac:(lia)) as [_ [_ [Hok _]]].
    destruct (Hok eq_refl) as [self [Hs [_ [_ Ha]]]].
    exists self. split; assumption.
Defined.

Lemma forward_output_shape_witness :
  exists l out,
    attention Examples.layer Examples.feats Examples.adj_loops = Ok l
    /\ fst (forward Examples.layer Examples.feats Examples.adj_loops false) = Ok out
    /\ shape out = [1; 2; 2].
Proof.
  destruct (@forward_output_shape Examples.rng 2 2 2 true 0.2%R Examples.layer 1 2
              Examples.feats Examples.adj_loops false
              ltac:(lia) eq_refl feats_loops_valid ltac:(lia) ltac:(lia)
              ltac:(binary_entries))
    as [l [out [Hl [Hout [Hshape _]]]]].
  exists l, out. repeat split; assumption.
Defined.

Lemma non_binary_entry_shape_mismatch_witness :
  In [0; 0; 0] (nonzero Examples.adj_two)
  /\ forward Examples.layer Examples.feats Examples.adj_two true = (Raise ShapeError, []).
Proof.
  destruct (@non_binary_entry_shape_mismatch Examples.layer 2 1 1 2
              Examples.feats Examples.adj_two true 0 0 0
              layer_wf feats_two_valid ltac:(lia) ltac:(lia) ltac:(lia)
              ltac:(cbn; lia) ltac:(cbn; lia))
    as [Hin [Hraise _]].
  split; [assumption|]. apply Hraise. cbn. lia.
Defined.



Lemma forward_st_frame_and_purity_witness :
  let rw := forward_st Examples.layer_h Examples.feats_h Examples.adj_h true
                       Examples.world0 in
  (forall l, l < 4 -> nth_error (heap (snd rw)) l = nth_error (heap Examples.world0) l)
  /\ stdout (snd rw)
     = snd (forward Examples.layer Examples.feats Examples.adj_loops true).
Proof.
  destruct (@forward_st_frame_and_purity Examples.layer_h Examples.feats_h Examples.adj_h
              true Examples.world0
              Examples.feats (projection Examples.layer) (a Examples.layer)
              Examples.adj_loops)
    as [_ [_ [_ [_ [Hframe [Hout _]]]]]]; try (split; reflexivity).
  split; [exact Hframe | exact Hout].
Defined.

(** ** Further properties of [forward] *)

(** *** The attention probabilities as weights *)

(** X1.  Every attention probability lies between 0 and 1. *)
Theorem attn_probs_in_unit_interval
        (self : GATLayer) (c_in C B N : nat) (x : Tensor R) (adj : Tensor Z)
        (l : Locals) (b i j h : nat) :
  wf_layer self c_in C ->
  valid_input c_in B N x adj ->
  attention self x adj = Ok l ->
  b < B -> i < N -> j < N -> h < num_heads self ->
  (0 <= getR (attn_probs l) [b; i; j; h] <= 1)%R.
Proof.
  intros Hlayer Hinput Hl Hb Hi Hj Hh.
  assert (HB : 0 < B) by lia. assert (HN : 0 < N) by lia.
  rewrite (probs_softmax Hlayer Hinput HB HN Hl Hb Hi Hj Hh).
  destruct (@softmax_weight_bound N (fun k => getR (attn_matrix l) [b; i; k; h]) j j Hj Hj)
    as [Hpos Hle].
  split; [left; exact Hpos|].
  replace 1%R with (exp (getR (attn_matrix l) [b; i; j; h]
                         - getR (attn_matrix l) [b; i; j; h])).
  - exact Hle.
  - rewrite Rminus_diag. apply exp_0.
Qed.

(** X2.  Within a row and a head, a larger entry of the dense logit tensor gets a
    larger probability. *)
Theorem attn_probs_monotone_in_logits
        (self : GATLayer) (c_in C B N : nat) (x : Tensor R) (adj : Tensor Z)
        (l : Locals) (b i j k h : nat) :
  wf_layer self c_in C ->
  valid_input c_in B N x adj ->
  attention self x adj = Ok l ->
  b < B -> i < N -> j < N -> k < N -> h < num_heads self ->
  (getR (attn_matrix l) [b; i; j; h] <= getR (attn_matrix l) [b; i; k; h])%R ->
  (getR (attn_probs l) [b; i; j; h] <= getR (attn_probs l) [b; i; k; h])%R.
Proof.
  intros Hlayer Hinput Hl Hb Hi Hj Hk Hh Hle.
  assert (HB : 0 < B) by lia. assert (HN : 0 < N) by lia.
  rewrite (probs_softmax Hlayer Hinput HB HN Hl Hb Hi Hj Hh).
  rewrite (probs_softmax Hlayer Hinput HB HN Hl Hb Hi Hk Hh).
  assert (Hs : (0 < sum_upto N (fun n => exp (getR (attn_matrix l) [b; i; n; h])))%R)
    by (apply sum_upto_pos; [lia | intros; apply exp_pos]).
  unfold Rdiv. apply Rmult_le_compat_r.
  - left. now apply Rinv_0_lt_compat.
  - destruct Hle as [Hlt | Heq].
    + left. now apply exp_increasing.
    + right. now rewrite Heq.
Qed.

(** *** The output as a weighted mean *)

Lemma sum_upto_le (n : nat) (f g : nat -> R) :
  (forall k, k < n -> (f k <= g k)%R) -> (sum_upto n f <= sum_upto n g)%R.
Proof.
  induction n as [|n IH]; intros H; simpl; [lra|].
  assert (sum_upto n f <= sum_upto n g)%R by (apply IH; intros; apply H; lia).
  specialize (H n ltac:(lia)). lra.
Qed.

(** A sum with non-negative weights of total 1 stays between the bounds of
    its terms. *)
Lemma weighted_mean_between (n : nat) (p v : nat -> R) (lo hi : R) :
  (forall j, j < n -> (0 <= p j)%R) ->
  sum_upto n p = 1%R ->
  (forall j, j < n -> (lo <= v j <= hi)%R) ->
  (lo <= sum_upto n (fun j => p j * v j) <= hi)%R.
Proof.
  intros Hp Hsum Hv. split.
  - replace lo with (sum_upto n (fun j => p j * lo))%R
      by (rewrite sum_upto_scale, Hsum; lra).
    apply sum_upto_le. intros j Hj.
    apply Rmult_le_compat_l; [now apply Hp | now apply Hv].
  - replace hi with (sum_upto n (fun j => p j * hi))%R
      by (rewrite sum_upto_scale, Hsum; lra).
    apply sum_upto_le. intros j Hj.
    apply Rmult_le_compat_l; [now apply Hp | now apply Hv].
Qed.

Lemma mean_between (n : nat) (v : nat -> R) (lo hi : R) :
  0 < n ->
  (forall h, h < n -> (lo <= v h <= hi)%R) ->
  (lo <= sum_upto n v / INR n <= hi)%R.
Proof.
  intros Hn Hv.
  assert (Hpos : (0 < INR n)%R) by (apply lt_0_INR; lia).
  assert (Hlo : (INR n * lo <= sum_upto n v)%R).
  { rewrite <- sum_upto_const. apply sum_upto_le. intros; now apply Hv. }
  assert (Hhi : (sum_upto n v <= INR n * hi)%R).
  { rewrite <- sum_upto_const. apply sum_upto_le. intros; now apply Hv. }
  split.
  - apply Rmult_le_reg_l with (INR n); [assumption|].
    replace (INR n * (sum_upto n v / INR n))%R with (sum_upto n v) by (field; lra).
    assumption.
  - apply Rmult_le_reg_l with (INR n); [assumption|].
    replace (INR n * (sum_upto n v / INR n))%R with (sum_upto n v) by (field; lra).
    assumption.
Qed.

Lemma head_output_between
      (self : GATLayer) (c_in C B N : nat) (x : Tensor R) (adj : Tensor Z)
      (l : Locals) (b i h c : nat) (lo hi : R) :
  wf_layer self c_in C ->
  valid_input c_in B N x adj ->
  attention self x adj = Ok l ->
  b < B -> i < N -> h < num_heads self ->
  (forall j, j < N -> (lo <= getR (node_feats' l) [b; j; h; c] <= hi)%R) ->
  (lo <= head_output l b i h c <= hi)%R.
Proof.
  intros Hlayer Hinput Hl Hb Hi Hh Hv.
  assert (HB : 0 < B) by lia. assert (HN : 0 < N) by lia.
  unfold head_output.
  destruct (locals_dims Hlayer Hinput HB HN Hl) as [_ [-> _]].
  apply (@weighted_mean_between N
           (fun j => getR (attn_probs l) [b; i; j; h])
           (fun j => getR (node_feats' l) [b; j; h; c])).
  - intros j Hj. left.
    rewrite (probs_softmax Hlayer Hinput HB HN Hl Hb Hi Hj Hh).
    now apply (@softmax_weight_bound N (fun k => getR (attn_matrix l) [b; i; k; h]) j j).
  - rewrite (@sum_upto_ext N _
               (fun j => exp (getR (attn_matrix l) [b; i; j; h])
                         / sum_upto N (fun k => exp (getR (attn_matrix l) [b; i; k; h])))%R).
    + now apply softmax_row_sum.
    + intros j Hj. now apply (probs_softmax Hlayer Hinput).
  - assumption.
Qed.

(** X3.  Whenever the attention step returns, every output entry of a destination
    node lies between the smallest and the largest value that the same
    feature takes among the projected features of the nodes of its graph: the
    layer averages, it never extrapolates. *)
Theorem output_within_feature_range
        (self : GATLayer) (c_in C B N : nat) (x : Tensor R) (adj : Tensor Z)
        (flag : bool) (l : Locals) (b i c : nat) (lo hi : R) :
  wf_layer self c_in C ->
  valid_input c_in B N x adj ->
  attention self x adj = Ok l ->
  b < B -> i < N -> c < C ->
  (forall j h, j < N -> h < num_heads self ->
     (lo <= getR (node_feats' l) [b; j; h; c] <= hi)%R) ->
  exists out,
    fst (forward self x adj flag) = Ok out
    /\ (concat_heads self = true ->
        forall h, h < num_heads self -> (lo <= getR out [b; i; (h * C + c)%nat] <= hi)%R)
    /\ (concat_heads self = false -> (lo <= getR out [b; i; c] <= hi)%R).
Proof.
  intros Hlayer Hinput Hl Hb Hi Hc Hv.
  assert (HB : 0 < B) by lia. assert (HN : 0 < N) by lia.
  destruct (forward_after Hlayer Hinput HB HN Hl flag)
    as [out [Hout [_ [Hcat Hmean]]]].
  assert (Hho : forall h, h < num_heads self -> (lo <= head_output l b i h c <= hi)%R).
  { intros h Hh.
    apply (@head_output_between self c_in C B N x adj l b i h c lo hi
             Hlayer Hinput Hl Hb Hi Hh).
    intros j Hj. now apply Hv. }
  exists out. split; [assumption|]. split.
  - intros Hcc h Hh. rewrite Hcat by assumption. now apply Hho.
  - intros Hcc. rewrite Hmean by assumption.
    apply mean_between; [apply Hlayer | assumption].
Qed.

(** *** The layout of the heads *)

(** X4.  After the projection and the view, feature [c] of head [h] of a node is
    the product of the node's input features with row [h * C + c] of the
    projection weight. *)
Theorem head_features_use_weight_rows
        (self : GATLayer) (c_in C B N : nat) (x : Tensor R) (adj : Tensor Z)
        (l : Locals) (b n h c : nat) :
  wf_layer self c_in C ->
  valid_input c_in B N x adj ->
  attention self x adj = Ok l ->
  b < B -> n < N -> h < num_heads self -> c < C ->
  getR (node_feats' l) [b; n; h; c]
  = sum_upto c_in
      (fun k => getR x [b; n; k] * getR (projection self) [(h * C + c)%nat; k])%R.
Proof.
  intros Hlayer Hinput Hl Hb Hn Hh Hc.
  assert (HB : 0 < B) by lia. assert (HN : 0 < N) by lia.
  now apply (node_feats_entry Hlayer Hinput HB HN Hl).
Qed.

(** X5.  With a single head, concatenating and averaging give the same output. *)
Theorem single_head_concat_equals_mean
        (W av : Tensor R) (alpha : R) (c_in C B N : nat)
        (x : Tensor R) (adj : Tensor Z) (flag : bool) :
  wf_layer (mkGAT 1 true W av alpha) c_in C ->
  valid_input c_in B N x adj ->
  0 < B -> 0 < N ->
  binary adj ->
  exists out1 out0,
    fst (forward (mkGAT 1 true W av alpha) x adj flag) = Ok out1
    /\ fst (forward (mkGAT 1 false W av alpha) x adj flag) = Ok out0
    /\ shape out1 = [B; N; C] /\ shape out0 = [B; N; C]
    /\ forall b n c, b < B -> n < N -> c < C ->
         getR out1 [b; n; c] = getR out0 [b; n; c].
Proof.
  intros Hlayer1 Hinput HB HN Hbin.
  assert (Hlayer0 : wf_layer (mkGAT 1 false W av alpha) c_in C).
  { destruct Hlayer1 as [H1 H2 H3 H4 H5]. constructor; assumption. }
  destruct (attention_total Hlayer1 Hinput HB HN Hbin) as [l Hl1].
  assert (Hl0 : attention (mkGAT 1 false W av alpha) x adj = Ok l) by exact Hl1.
  destruct (forward_after Hlayer1 Hinput HB HN Hl1 flag)
    as [out1 [Hout1 [Hs1 [Hcat _]]]].
  destruct (forward_after Hlayer0 Hinput HB HN Hl0 flag)
    as [out0 [Hout0 [Hs0 [_ Hmean]]]].
  cbn [concat_heads num_heads] in *.
  exists out1, out0. repeat split; try assumption.
  - rewrite Hs1. now rewrite Nat.mul_1_l.
  - intros b n c Hb Hn Hc.
    rewrite (Hmean eq_refl b n c Hb Hn Hc). cbn [sum_upto INR].
    pose proof (Hcat eq_refl b n 0 c Hb Hn ltac:(lia) Hc) as Hc1.
    cbn [Nat.mul Nat.add] in Hc1. rewrite Hc1. field.
Qed.

(** *** Inputs that make [forward] raise *)

(** X6.  A feature batch whose width is not the one the projection expects makes
    [forward] raise a shape error at the projection; nothing is printed. *)
Theorem feature_width_mismatch_raises
        (self : GATLayer) (x : Tensor R) (adj : Tensor Z) (flag : bool)
        (B N c o c_i : nat) :
  shape x = [B; N; c] ->
  shape (projection self) = [o; c_i] ->
  c <> c_i ->
  forward self x adj flag = (Raise ShapeError, []).
Proof.
  intros Hx HW Hne. unfold forward, attention, size, linear.
  rewrite Hx, HW. cbn [nth_error bind].
  destruct (Nat.eqb_spec c c_i) as [E | _]; [contradiction | reflexivity].
Qed.

(** X7.  With no graph, no node or no head the last dimension of the first view
    cannot be inferred: [forward] raises a shape error. *)
Theorem empty_batch_raises
        (self : GATLayer) (x : Tensor R) (adj : Tensor Z) (flag : bool)
        (B N c_in o : nat) :
  shape x = [B; N; c_in] ->
  shape (projection self) = [o; c_in] ->
  B * N * num_heads self = 0 ->
  forward self x adj flag = (Raise ShapeError, []).
Proof.
  intros Hx HW Hz. unfold forward, attention, size, linear.
  rewrite Hx, HW. cbn [nth_error bind]. rewrite Nat.eqb_refl. cbn [bind].
  unfold view_infer, infer_last.
  replace (numel [B; N; num_heads self]) with 0 by (simpl; lia).
  reflexivity.
Qed.

Lemma nonzero_has (t : Tensor Z) (idx : list nat) :
  wf t -> in_range (shape t) idx -> getZ t idx <> 0%Z -> In idx (nonzero t).
Proof.
  intros Hwf Hr Hnz. unfold nonzero.
  change idx with (fst (idx, getZ t idx)).
  apply in_map. apply filter_In. split.
  - assert (Hnth : nth (offset (shape t) idx) (combine (indices (shape t)) (data t))
                       ([], 0%Z) = (idx, getZ t idx)).
    { rewrite combine_nth by (now rewrite indices_length).
      now rewrite indices_nth. }
    rewrite <- Hnth. apply nth_In.
    rewrite length_combine, indices_length, Hwf, Nat.min_id. now apply offset_lt.
  - cbn [snd]. apply negb_true_iff. now apply Z.eqb_neq.
Qed.

Lemma forallb_false_in {A : Type} (f : A -> bool) (l : list A) (y : A) :
  In y l -> f y = false -> forallb f l = false.
Proof.
  intros Hin Hf. destruct (forallb f l) eqn:E; [|reflexivity].
  rewrite forallb_forall in E. rewrite (E y Hin) in Hf. discriminate.
Qed.

(** X8.  A nonzero adjacency entry of a destination [(b, i)] beyond the nodes of
    the feature batch (an adjacency batch with more graphs, say) makes the
    selection of the destination features fail: [forward] raises an index
    error and prints nothing. *)
Theorem adjacency_beyond_features_raises
        (self : GATLayer) (c_in C B N : nat) (x : Tensor R) (adj : Tensor Z)
        (flag : bool) (b i j : nat) :
  wf_layer self c_in C ->
  shape x = [B; N; c_in] ->
  0 < B -> 0 < N ->
  wf adj ->
  in_range (shape adj) [b; i; j] ->
  getZ adj [b; i; j] <> 0%Z ->
  B * N <= b * N + i ->
  forward self x adj flag = (Raise IndexError, []).
Proof.
  intros Hlayer Hx HB HN Hwf Hr Hnz Hout.
  pose proof (wf_heads Hlayer) as HH.
  unfold forward, attention, size, linear.
  rewrite Hx, (wf_proj_shape Hlayer). cbn [nth_error bind].
  rewrite Nat.eqb_refl. cbn [bind].
  rewrite (@view_infer_ok _ _ [B; N; num_heads self] C);
    [| simpl; nia | simpl; ring].
  cbn [bind app].
  rewrite (@view_infer_ok _ _ [B * N; num_heads self] C);
    [| simpl; nia | simpl; ring].
  cbn [bind app]. unfold column. rewrite !map_map, !map2_map.
  unfold index_select0 at 1. cbn [shape].
  rewrite (@forallb_false_in _ _ _ (b * N + i)); [reflexivity | |].
  - apply in_map_iff. exists [b; i; j]. split; [reflexivity|].
    now apply nonzero_has.
  - apply Nat.ltb_ge. assumption.
Qed.

(** *** What is printed *)

(** X9.  On a well-formed input the print flag emits one tensor of shape
    [B, num_heads, N, N]: entry [(b, h, i, j)] is the probability with which
    destination [i] attends to source [j] in head [h], and every row sums
    to one. *)
Theorem printed_attention_layout
        (self : GATLayer) (c_in C B N : nat) (x : Tensor R) (adj : Tensor Z) :
  wf_layer self c_in C ->
  valid_input c_in B N x adj ->
  0 < B -> 0 < N ->
  binary adj ->
  exists l t,
    attention self x adj = Ok l
    /\ snd (forward self x adj true) = [t]
    /\ shape t = [B; num_heads self; N; N]
    /\ (forall b h i j, b < B -> h < num_heads self -> i < N -> j < N ->
          getR t [b; h; i; j] = getR (attn_probs l) [b; i; j; h])
    /\ (forall b h i, b < B -> h < num_heads self -> i < N ->
          sum_upto N (fun j => getR t [b; h; i; j]) = 1%R).
Proof.
  intros Hlayer Hinput HB HN Hbin.
  destruct (attention_total Hlayer Hinput HB HN Hbin) as [l Hl].
  destruct (locals_dims Hlayer Hinput HB HN Hl) as [_ [_ [_ [_ [_ Hps]]]]].
  assert (Hget : forall b h i j, b < B -> h < num_heads self -> i < N -> j < N ->
            getR (permute_0312 (attn_probs l)) [b; h; i; j]
            = getR (attn_probs l) [b; i; j; h]).
  { intros b h i j Hb Hh Hi Hj. unfold permute_0312. rewrite Hps.
    unfold getR at 1. now rewrite get_build4. }
  exists l, (permute_0312 (attn_probs l)).
  split; [assumption|]. split; [unfold forward; now rewrite Hl|].
  split; [unfold permute_0312; now rewrite Hps|].
  split; [assumption|].
  intros b h i Hb Hh Hi.
  rewrite (@sum_upto_ext N _
             (fun j => exp (getR (attn_matrix l) [b; i; j; h])
                       / sum_upto N (fun k => exp (getR (attn_matrix l) [b; i; k; h])))%R).
  - now apply softmax_row_sum.
  - intros j Hj. rewrite Hget by assumption.
    now apply (probs_softmax Hlayer Hinput).
Qed.

(** *** Graphs of a batch do not interact *)

(** X10.  The output rows of graph [b] depend only on the features and the
    adjacency of graph [b]: two batches that agree on that graph give the same
    output for it, whatever their other graphs hold. *)
Theorem graph_output_depends_on_its_graph
        (self : GATLayer) (c_in C B N : nat) (x x' : Tensor R) (adj adj' : Tensor Z)
        (flag : bool) (b : nat) :
  wf_layer self c_in C ->
  valid_input c_in B N x adj ->
  valid_input c_in B N x' adj' ->
  binary adj -> binary adj' ->
  b < B -> 0 < N ->
  (forall n k, n < N -> k < c_in -> getR x [b; n; k] = getR x' [b; n; k]) ->
  (forall i j, i < N -> j < N -> getZ adj [b; i; j] = getZ adj' [b; i; j]) ->
  exists out out',
    fst (forward self x adj flag) = Ok out
    /\ fst (forward self x' adj' flag) = Ok out'
    /\ shape out = shape out'
    /\ forall n k, n < N ->
         k < (if concat_heads self then num_heads self * C else C) ->
         getR out [b; n; k] = getR out' [b; n; k].
Proof.
  intros Hlayer Hin Hin' Hbin Hbin' Hb HN Hx Hadj.
  assert (HB : 0 < B) by lia.
  destruct (attention_total Hlayer Hin HB HN Hbin) as [l Hl].
  destruct (attention_total Hlayer Hin' HB HN Hbin') as [l' Hl'].
  assert (Hnf : forall n h c, n < N -> h < num_heads self -> c < C ->
            getR (node_feats' l) [b; n; h; c] = getR (node_feats' l') [b; n; h; c]).
  { intros n h c Hn Hh Hc.
    rewrite (node_feats_entry Hlayer Hin HB HN Hl Hb Hn Hh Hc).
    rewrite (node_feats_entry Hlayer Hin' HB HN Hl' Hb Hn Hh Hc).
    apply sum_upto_ext. intros k Hk. now rewrite Hx. }
  assert (Hhf : forall n h, n < N -> h < num_heads self ->
            head_feats l C b n h = head_feats l' C b n h).
  { intros n h Hn Hh. unfold head_feats. apply map_ext_in.
    intros c Hc. apply in_seq in Hc. apply Hnf; lia. }
  assert (Hm : forall i j h, i < N -> j < N -> h < num_heads self ->
            getR (attn_matrix l) [b; i; j; h] = getR (attn_matrix l') [b; i; j; h]).
  { intros i j h Hi Hj Hh.
    rewrite (matrix_entry Hlayer Hin HB HN Hl Hbin Hb Hi Hj Hh).
    rewrite (matrix_entry Hlayer Hin' HB HN Hl' Hbin' Hb Hi Hj Hh).
    rewrite (Hadj i j Hi Hj), (Hhf i h Hi Hh), (Hhf j h Hj Hh). reflexivity. }
  assert (Hp : forall i j h, i < N -> j < N -> h < num_heads self ->
            getR (attn_probs l) [b; i; j; h] = getR (attn_probs l') [b; i; j; h]).
  { intros i j h Hi Hj Hh.
    rewrite (probs_softmax Hlayer Hin HB HN Hl Hb Hi Hj Hh).
    rewrite (probs_softmax Hlayer Hin' HB HN Hl' Hb Hi Hj Hh).
    rewrite (Hm i j h Hi Hj Hh). f_equal.
    apply sum_upto_ext. intros k Hk. now rewrite Hm. }
  assert (Hho : forall i h c, i < N -> h < num_heads self -> c < C ->
            head_output l b i h c = head_output l' b i h c).
  { intros i h c Hi Hh Hc. unfold head_output.
    destruct (locals_dims Hlayer Hin HB HN Hl) as [_ [-> _]].
    destruct (locals_dims Hlayer Hin' HB HN Hl') as [_ [-> _]].
    apply sum_upto_ext. intros j Hj. now rewrite Hp, Hnf. }
  destruct (forward_after Hlayer Hin HB HN Hl flag)
    as [out [Hout [Hs [Hcat Hmean]]]].
  destruct (forward_after Hlayer Hin' HB HN Hl' flag)
    as [out' [Hout' [Hs' [Hcat' Hmean']]]].
  exists out, out'. split; [assumption|]. split; [assumption|].
  split; [now rewrite Hs, Hs'|].
  intros n k Hn Hk. revert Hk Hcat Hcat' Hmean Hmean'.
  destruct (concat_heads self); intros Hk Hcat Hcat' Hmean Hmean'.
  - assert (HC : C <> 0) by (intro E0; rewrite E0, Nat.mul_0_r in Hk; lia).
    assert (Hh : k / C < num_heads self)
      by (apply Nat.Div0.div_lt_upper_bound; lia).
    assert (Hc : k mod C < C) by now apply Nat.mod_upper_bound.
    assert (Ek : k = k / C * C + k mod C)
      by (rewrite (Nat.div_mod_eq k C) at 1; lia).
    rewrite Ek.
    rewrite (Hcat eq_refl b n (k / C) (k mod C) Hb Hn Hh Hc).
    rewrite (Hcat' eq_refl b n (k / C) (k mod C) Hb Hn Hh Hc).
    now apply Hho.
  - rewrite (Hmean eq_refl b n k Hb Hn Hk), (Hmean' eq_refl b n k Hb Hn Hk). f_equal.
    apply sum_upto_ext. intros h Hh. now apply Hho.
Qed.

(** *** The further properties at the examples *)

Lemma layer1_wf : wf_layer MoreExamples.layer1_concat 2 2.
Proof. constructor; cbn; auto; reflexivity. Qed.

Lemma feats_b2_valid : valid_input 2 2 2 MoreExamples.feats_b2 MoreExamples.adj_b2.
Proof. constructor; reflexivity. Qed.

Lemma feats_b2'_valid : valid_input 2 2 2 MoreExamples.feats_b2' MoreExamples.adj_b2'.
Proof. constructor; reflexivity. Qed.

Lemma attn_probs_in_unit_interval_witness :
  exists l,
    attention Examples.layer Examples.feats Examples.adj_loops = Ok l
    /\ (0 <= getR (attn_probs l) [0; 0; 1; 0]%nat <= 1)%R.
Proof.
  destruct (@attention_total _ _ _ _ _ _ _ layer_wf feats_loops_valid
              Nat.lt_0_1 Nat.lt_0_2 ltac:(binary_entries)) as [l Hl].
  exists l. split; [exact Hl|].
  apply (@attn_probs_in_unit_interval Examples.layer 2 1 1 2
           Examples.feats Examples.adj_loops l 0 0 1 0
           layer_wf feats_loops_valid Hl); cbn; lia.
Defined.

Lemma attn_probs_monotone_in_logits_witness :
  exists l,
    attention Examples.layer Examples.feats Examples.adj_isolated = Ok l
    /\ (getR (attn_probs l) [0; 1; 0; 0]%nat <= getR (attn_probs l) [0; 1; 1; 0]%nat)%R.
Proof.
  assert (Hbin : binary Examples.adj_isolated) by binary_entries.
  destruct (@attention_total _ _ _ _ _ _ _ layer_wf feats_isolated_valid
              Nat.lt_0_1 Nat.lt_0_2 Hbin) as [l Hl].
  exists l. split; [exact Hl|].
  assert (Hrow : forall j, j < 2 -> getZ Examples.adj_isolated [0; 1; j] = 0%Z)
    by (intros j Hj; destruct j as [|[|j]]; [reflexivity | reflexivity | lia]).
  assert (Hh : 0 < num_heads Examples.layer) by (cbn; lia).
  destruct (@isolated_row_probs _ _ _ _ _ _ _ l 0 1 layer_wf feats_isolated_valid
              Hbin Hl Nat.lt_0_1 Nat.lt_1_2 Hrow 0 0 Nat.lt_0_2 Hh) as [Hm0 _].
  destruct (@isolated_row_probs _ _ _ _ _ _ _ l 0 1 layer_wf feats_isolated_valid
              Hbin Hl Nat.lt_0_1 Nat.lt_1_2 Hrow 1 0 Nat.lt_1_2 Hh) as [Hm1 _].
  apply (@attn_probs_monotone_in_logits Examples.layer 2 1 1 2
           Examples.feats Examples.adj_isolated l 0 1 0 1 0
           layer_wf feats_isolated_valid Hl); try (cbn; lia).
  rewrite Hm0, Hm1. apply Rle_refl.
Defined.

Lemma head_features_use_weight_rows_witness :
  exists l,
    attention Examples.layer Examples.feats Examples.adj_loops = Ok l
    /\ getR (node_feats' l) [0; 1; 1; 0]
       = sum_upto 2 (fun k => getR Examples.feats [0; 1; k]%nat
                              * getR (projection Examples.layer) [1; k]%nat)%R.
Proof.
  destruct (@attention_total _ _ _ _ _ _ _ layer_wf feats_loops_valid
              Nat.lt_0_1 Nat.lt_0_2 ltac:(binary_entries)) as [l Hl].
  exists l. split; [exact Hl|].
  apply (@head_features_use_weight_rows Examples.layer 2 1 1 2
           Examples.feats Examples.adj_loops l 0 1 1 0
           layer_wf feats_loops_valid Hl); cbn; lia.
Defined.

Lemma output_within_feature_range_witness :
  exists l out,
    attention Examples.layer Examples.feats Examples.adj_loops = Ok l
    /\ fst (forward Examples.layer Examples.feats Examples.adj_loops false) = Ok out
    /\ (2 <= getR out [0; 1; 0]%nat <= 18)%R
    /\ (2 <= getR out [0; 1; 1]%nat <= 18)%R.
Proof.
  destruct (@attention_total _ _ _ _ _ _ _ layer_wf feats_loops_valid
              Nat.lt_0_1 Nat.lt_0_2 ltac:(binary_entries)) as [l Hl].
  destruct (@output_within_feature_range Examples.layer 2 1 1 2
              Examples.feats Examples.adj_loops false l 0 1 0 2%R 18%R
              layer_wf feats_loops_valid Hl Nat.lt_0_1 Nat.lt_1_2 Nat.lt_0_1)
    as [out [Hout [Hcat _]]].
  - intros j h Hj Hh.
    rewrite (node_feats_entry layer_wf feats_loops_valid Nat.lt_0_1 Nat.lt_0_2 Hl
               Nat.lt_0_1 Hj Hh Nat.lt_0_1).
    destruct j as [|[|j]]; [| | lia];
      (destruct h as [|[|h]]; [| | cbn in Hh; lia]);
      cbv [sum_upto getR get Examples.feats Examples.layer projection shape data
           offset numel fold_right xavier_normal_ Examples.rng seq map nth
           Nat.mul Nat.add INR]; lra.
  - exists l, out. split; [exact Hl|]. split; [exact Hout|].
    split; [apply (Hcat eq_refl 0) | apply (Hcat eq_refl 1)]; cbn; lia.
Defined.

Lemma single_head_concat_equals_mean_witness :
  exists out1 out0,
    fst (forward MoreExamples.layer1_concat Examples.feats Examples.adj_loops false)
    = Ok out1
    /\ fst (forward MoreExamples.layer1_mean Examples.feats Examples.adj_loops false)
       = Ok out0
    /\ shape out1 = [1; 2; 2] /\ shape out0 = [1; 2; 2]
    /\ forall b n c, b < 1 -> n < 2 -> c < 2 ->
         getR out1 [b; n; c] = getR out0 [b; n; c].
Proof.
  apply (@single_head_concat_equals_mean MoreExamples.weight1 MoreExamples.att1
           0.2%R 2 2 1 2 Examples.feats Examples.adj_loops false).
  - exact layer1_wf.
  - exact feats_loops_valid.
  - lia.
  - lia.
  - binary_entries.
Defined.

Lemma feature_width_mismatch_raises_witness :
  forward Examples.layer MoreExamples.feats_wide Examples.adj_loops true
  = (Raise ShapeError, []).
Proof.
  apply (@feature_width_mismatch_raises Examples.layer MoreExamples.feats_wide
           Examples.adj_loops true 1 2 3 2 2); [reflexivity | reflexivity | lia].
Defined.

Lemma empty_batch_raises_witness :
  forward Examples.layer MoreExamples.feats_empty MoreExamples.adj_empty true
  = (Raise ShapeError, []).
Proof.
  apply (@empty_batch_raises Examples.layer MoreExamples.feats_empty
           MoreExamples.adj_empty true 0 2 2 2); reflexivity.
Defined.

Lemma adjacency_beyond_features_raises_witness :
  forward Examples.layer Examples.feats MoreExamples.adj_two_graphs true
  = (Raise IndexError, []).
Proof.
  apply (@adjacency_beyond_features_raises Examples.layer 2 1 1 2
           Examples.feats MoreExamples.adj_two_graphs true 1 0 0).
  - exact layer_wf.
  - reflexivity.
  - lia.
  - lia.
  - reflexivity.
  - cbn. lia.
  - cbn. lia.
  - lia.
Defined.

Lemma printed_attention_layout_witness :
  exists l t,
    attention Examples.layer Examples.feats Examples.adj_loops = Ok l
    /\ snd (forward Examples.layer Examples.feats Examples.adj_loops true) = [t]
    /\ shape t = [1; 2; 2; 2]
    /\ sum_upto 2 (fun j => getR t [0; 1; 0; j]) = 1%R.
Proof.
  destruct (@printed_attention_layout Examples.layer 2 1 1 2
              Examples.feats Examples.adj_loops
              layer_wf feats_loops_valid Nat.lt_0_1 Nat.lt_0_2 ltac:(binary_entries))
    as [l [t [Hl [Hp [Hs [_ Hsum]]]]]].
  exists l, t. repeat split; try assumption.
  apply Hsum; cbn; lia.
Defined.

Lemma graph_output_depends_on_its_graph_witness :
  exists out out',
    fst (forward Examples.layer MoreExamples.feats_b2 MoreExamples.adj_b2 false) = Ok out
    /\ fst (forward Examples.layer MoreExamples.feats_b2' MoreExamples.adj_b2' false)
       = Ok out'
    /\ forall n k, n < 2 -> k < 2 -> getR out [0; n; k] = getR out' [0; n; k].
Proof.
  destruct (@graph_output_depends_on_its_graph Examples.layer 2 1 2 2
              MoreExamples.feats_b2 MoreExamples.feats_b2'
              MoreExamples.adj_b2 MoreExamples.adj_b2' false 0
              layer_wf feats_b2_valid feats_b2'_valid
              ltac:(binary_entries) ltac:(binary_entries) Nat.lt_0_2 Nat.lt_0_2)
    as [out [out' [Ho [Ho' [_ Heq]]]]].
  - intros n k Hn Hk.
    destruct n as [|[|n]]; [| | lia]; (destruct k as [|[|k]]; [| | lia]); reflexivity.
  - intros i j Hi Hj.
    destruct i as [|[|i]]; [| | lia]; (destruct j as [|[|j]]; [| | lia]); reflexivity.
  - exists out, out'. repeat split; try assumption.
Defined.

Lemma forward_st_frame_witness :
  nth_error (heap (snd (forward_st Examples.layer_h Examples.feats_h Examples.adj_h
                                   false Examples.world0))) 1
  = Some (SInt (data Examples.adj_loops)).
Proof.
  rewrite (@forward_st_frame Examples.layer_h Examples.feats_h Examples.adj_h
             false Examples.world0 1); [reflexivity | cbn; lia].
Defined.

(** *** The returned tensor on the heap *)

Ltac fresh_case E1 op :=
  lazymatch op with
  | context [match _ with _ => _ end] => fail
  | _ => idtac
  end;
  destruct op eqn:?;
  run_in E1; try discriminate E1.

Ltac fresh_step E1 :=
  match type of E1 with
  | context [match ?op with Ok _ => _ | Raise _ => _ end] => fresh_case E1 op
  | context [match ?op with Some _ => _ | None => _ end] => fresh_case E1 op
  | context [match ?op with
             | SReal _ => _ | SInt _ => _ | SRows _ => _ | SIdx _ => _ | SBool _ => _
             end] => fresh_case E1 op
  | context [if ?op then _ else _] => fresh_case E1 op
  end.

(** X12.  On any heap, the tensor that [forward_st] returns lives in a storage that
    the call allocated: it shares no storage with the inputs, the parameters
    or anything that existed before. *)
Theorem forward_st_result_is_fresh
        (selfh : GATLayerH) (nf adj : handle) (flag : bool) (w : world) (h : handle) :
  fst (forward_st selfh nf adj flag w) = Ok h ->
  length (heap w) <= loc h < length (heap (snd (forward_st selfh nf adj flag w))).
Proof.
  destruct (forward_st selfh nf adj flag w) as [r1 w1] eqn:E1.
  cbn [fst snd]. intros Hret. subst r1.
  destruct nf as [nfl nfs], adj as [adjl adjs], selfh as [H concat [pl psh] [al ash] alpha].
  unfold forward_st, size_h in E1.
  cbn [loc hshape projection_h a_h num_heads_h concat_heads_h leakyrelu_h] in E1.
  run_in E1.
  repeat fresh_step E1.
  all: inversion E1; subst; cbn [loc heap]; split; heap_len.
Qed.

Lemma forward_st_result_is_fresh_witness :
  exists h,
    fst (forward_st Examples.layer_h Examples.feats_h Examples.adj_h false
                    Examples.world0) = Ok h
    /\ 4 <= loc h.
Proof.
  destruct (@forward_st_refines Examples.layer_h Examples.feats_h Examples.adj_h
              false Examples.world0
              Examples.feats (projection Examples.layer) (a Examples.layer)
              Examples.adj_loops) as [_ [_ Hres]]; try (split; reflexivity).
  cbn [Examples.layer_h num_heads_h concat_heads_h leakyrelu_h] in Hres.
  destruct (@attention_total _ _ _ _ _ _ _ layer_wf feats_loops_valid
              Nat.lt_0_1 Nat.lt_0_2 ltac:(binary_entries)) as [l Hl].
  destruct (forward_after layer_wf feats_loops_valid Nat.lt_0_1 Nat.lt_0_2 Hl false)
    as [out [Hout _]].
  change (mkGAT 2 true (projection Examples.layer) (a Examples.layer) 0.2%R)
    with Examples.layer in Hres.
  rewrite Hout in Hres. destruct Hres as [h [Hh _]].
  exists h. split; [exact Hh|].
  apply (@forward_st_result_is_fresh Examples.layer_h Examples.feats_h Examples.adj_h
           false Examples.world0 h Hh).
Defined.

(** *** A node without edges and zero features *)


